(** * Brand rating report: a model of [script.py]

    The script reads CSV files ([read_csv_files]), groups the accepted rows
    by brand and averages their ratings ([calculate_average_rating]), and
    prints the table ([main]).

    Python floats are IEEE 754 binary64 numbers; they are modelled by the
    Standard Library's [spec_float] at precision 53 and maximal exponent
    1024, whose operations are defined by computation on [Z]. Rows are
    dictionaries ([gmap]), [defaultdict(list)] is an insertion-ordered
    association list, and [print], exceptions and [sys.exit] live in a small
    writer/error monad. *)

From Stdlib Require Import ZArith Lia List Bool Ascii String Sorted Permutation.
From Stdlib Require Import Floats.SpecFloat.
From stdpp Require Import gmap strings.

Import ListNotations.
Local Open Scope string_scope.
Local Open Scope Z_scope.

(** ** Python floats *)

Module PyFloat.

Definition prec : Z := 53.
Definition emax : Z := 1024.

Abbreviation float := spec_float.

Definition nan : float := S754_nan.
Definition zero : float := S754_zero false.

Definition add : float -> float -> float := SFadd prec emax.
Definition sub : float -> float -> float := SFsub prec emax.
Definition div : float -> float -> float := SFdiv prec emax.
Definition abs : float -> float := SFabs.
Definition ltb : float -> float -> bool := SFltb.
Definition leb : float -> float -> bool := SFleb.
Definition eqb : float -> float -> bool := SFeqb.

(** [x >= y] and [x > y] are the mirrored comparisons. *)
Definition geb (x y : float) : bool := leb y x.
Definition gtb (x y : float) : bool := ltb y x.

Definition is_nan (x : float) : bool :=
  match x with S754_nan => true | _ => false end.

(** [math.isfinite] *)
Definition is_finite (x : float) : bool :=
  match x with S754_zero _ | S754_finite _ _ _ => true | _ => false end.

(** Conversion of a Python [int] to [float]: round to nearest, ties to
    even.  (CPython raises [OverflowError] beyond the largest double; the
    only integers converted here are [0], [5] and list lengths, which
    are at most [sys.maxsize].) *)
Definition of_Z (n : Z) : float := binary_normalize prec emax n 0 false.

(** The double nearest to the rational [n / d] (ties to even), as
    [strtod] computes it for a decimal numeral. *)
Definition of_ratio (s : bool) (n d : positive) : float :=
  let '(q, e, l) := SFdiv_core_binary prec emax (Zpos n) 0 (Zpos d) 0 in
  binary_round_aux prec emax s q e l.

(** Nearest integer to [n / d], ties to even ([n >= 0], [d > 0]). *)
Definition div_half_even (n d : Z) : Z :=
  let q := n / d in
  let r := n mod d in
  match (2 * r ?= d) with
  | Lt => q
  | Gt => q + 1
  | Eq => if Z.even q then q else q + 1
  end.

(** [round(x, 2)]: CPython prints the exact binary value of [x] with two
    digits after the point (correctly rounded, ties to even) and reads
    the numeral back; infinities and NaN round to themselves. *)
Definition round2 (x : float) : float :=
  match x with
  | S754_finite s m e =>
      let k :=
        match e with
        | Zneg p => div_half_even (100 * Zpos m) (Z.pow_pos 2 p)
        | _ => 100 * Zpos m * 2 ^ e
        end in
      match k with
      | Zpos kp => of_ratio s kp 100
      | _ => S754_zero s
      end
  | _ => x
  end.

End PyFloat.

(** ** Python strings

    A [str] is modelled by a [string] whose characters are the code points
    below 256. *)

Module PyStr.

Definition code (c : ascii) : N := N_of_ascii c.

(** [str.isspace] on one character (the white space below 256). *)
Definition is_space (c : ascii) : bool :=
  let n := code c in
  ((9 <=? n) && (n <=? 13) || (28 <=? n) && (n <=? 32)
   || (n =? 133) || (n =? 160))%N.

Fixpoint lstrip_chars (l : list ascii) : list ascii :=
  match l with
  | c :: l' => if is_space c then lstrip_chars l' else l
  | [] => []
  end.

Definition strip_chars (l : list ascii) : list ascii :=
  rev (lstrip_chars (rev (lstrip_chars l))).

(** [s.strip()] *)
Definition strip (s : string) : string :=
  string_of_list_ascii (strip_chars (list_ascii_of_string s)).

(** [c.lower()] for one character below 256. *)
Definition lower_char (c : ascii) : ascii :=
  let n := code c in
  if ((65 <=? n) && (n <=? 90)
      || (192 <=? n) && (n <=? 222) && negb (n =? 215))%N
  then ascii_of_N (n + 32) else c.

Definition lower (s : string) : string :=
  string_of_list_ascii (map lower_char (list_ascii_of_string s)).

(** [s.endswith(suffix)] *)
Definition endswith (s suffix : string) : bool :=
  let l := list_ascii_of_string s in
  let k := (List.length l - String.length suffix)%nat in
  (String.length suffix <=? List.length l)%nat
  && String.eqb (string_of_list_ascii (skipn k l)) suffix.

(** Truth value of a [str]: non-empty. *)
Definition nonempty (s : string) : bool :=
  match s with EmptyString => false | _ => true end.

End PyStr.

(** ** [float(str)] *)

Module FloatParse.
Import PyFloat PyStr.

Definition is_digit (c : ascii) : bool :=
  ((48 <=? code c) && (code c <=? 57))%N.

Definition digit (c : ascii) : Z := Z.of_N (code c) - 48.

(** The rest of a [digitpart] after a first digit:
    [(["_"] digit)*], the digits read so far in [acc]. *)
Fixpoint digits_tail (l : list ascii) (acc : list Z)
  : list Z * list ascii :=
  match l with
  | c :: l' =>
      if is_digit c then digits_tail l' (acc ++ [digit c])%list
      else if Ascii.eqb c "_" then
        match l' with
        | d :: l'' =>
            if is_digit d then digits_tail l'' (acc ++ [digit d])%list
            else (acc, l)
        | [] => (acc, l)
        end
      else (acc, l)
  | [] => (acc, [])
  end.

(** An optional [digitpart]. *)
Definition digitpart (l : list ascii) : list Z * list ascii :=
  match l with
  | c :: l' => if is_digit c then digits_tail l' [digit c] else ([], l)
  | [] => ([], [])
  end.

Definition decimal (ds : list Z) : Z :=
  fold_left (fun n d => 10 * n + d) ds 0.

Definition sign (l : list ascii) : bool * list ascii :=
  match l with
  | c :: l' =>
      if Ascii.eqb c "-" then (true, l')
      else if Ascii.eqb c "+" then (false, l')
      else (false, l)
  | [] => (false, [])
  end.

(** [("e" | "E") [sign] digitpart], or nothing; [None] when an exponent
    starts and has no digit. *)
Definition exponent (l : list ascii) : option (Z * list ascii) :=
  match l with
  | c :: l' =>
      if Ascii.eqb c "e" || Ascii.eqb c "E" then
        let '(s, l1) := sign l' in
        match digitpart l1 with
        | ([], _) => None
        | (ds, rest) =>
            Some (if s then - decimal ds else decimal ds, rest)
        end
      else Some (0, l)
  | [] => Some (0, [])
  end.

(** The double nearest to [n * 10 ^ scale]. *)
Definition of_decimal (s : bool) (n scale : Z) : float :=
  match n with
  | Zpos p =>
      match scale with
      | Zneg k => of_ratio s p (Pos.pow 10 k)
      | _ => of_ratio s (p * Z.to_pos (10 ^ scale)) 1
      end
  | _ => S754_zero s
  end.

(** [floatnumber]: [number [exponent]] up to the end of the text. *)
Definition floatnumber (s : bool) (l : list ascii) : option float :=
  let '(ip, l1) := digitpart l in
  let '(fp, l2) :=
    match l1 with
    | c :: l1' => if Ascii.eqb c "." then digitpart l1' else ([], l1)
    | [] => ([], [])
    end in
  match (ip ++ fp)%list with
  | [] => None
  | ds =>
      match exponent l2 with
      | Some (e, []) =>
          Some (of_decimal s (decimal ds) (e - Z.of_nat (List.length fp)))
      | _ => None
      end
  end.

(** [float(s)] for a [str]: [None] stands for [ValueError]. *)
Definition parse (text : string) : option float :=
  let '(s, l) := sign (strip_chars (list_ascii_of_string text)) in
  let word := string_of_list_ascii (map lower_char l) in
  if String.eqb word "inf" || String.eqb word "infinity"
  then Some (S754_infinity s)
  else if String.eqb word "nan" then Some nan
  else floatnumber s l.

End FloatParse.

(** ** Values, rows and report rows *)

Import PyFloat.

(** The objects a row can hold: [csv.DictReader] yields [str] fields, [None]
    for the fields a short line lacks, and a list of the surplus fields of a
    long line (under the key [None]); the ingestor stores a [float]. *)
Inductive value :=
| VNone
| VStr (s : string)
| VFloat (x : float)
| VList (l : list string).

(** A row is a [dict]; its keys are field names, or [None] (the reader's
    [restkey]). *)
Abbreviation row := (gmap (option string) value).

Definition field (name : string) : option string := Some name.

(** [bool(v)] *)
Definition truthy (v : value) : bool :=
  match v with
  | VNone => false
  | VStr s => PyStr.nonempty s
  | VFloat x => negb (eqb x zero)
  | VList l => match l with [] => false | _ => true end
  end.

(** [row.get(name)]: [None] when the key is absent. *)
Definition get (r : row) (name : string) : value :=
  match r !! field name with Some v => v | None => VNone end.

(** Equality of dictionary keys ([==]); a list is not hashable. Every NaN is
    taken to be an object of its own, so it equals no key. *)
Definition key_eqb (a b : value) : bool :=
  match a, b with
  | VNone, VNone => true
  | VStr s, VStr t => String.eqb s t
  | VFloat x, VFloat y => eqb x y
  | _, _ => false
  end.

Definition hashable (v : value) : bool :=
  match v with VList _ => false | _ => true end.

(** [{'brand': ..., 'average_rating': ...}] *)
Record report_row := ReportRow { brand : value; average_rating : float }.

(** ** Output, exceptions and the monad of the script *)

Inductive exn :=
| SystemExit (code : Z)
| KeyboardInterrupt
| FileNotFoundError
| PermissionError
| ValueError
| TypeError
| KeyError
| AttributeError
| ZeroDivisionError
| OtherException (what : string).

(** Membership in the class [Exception]. *)
Definition is_Exception (e : exn) : bool :=
  match e with SystemExit _ | KeyboardInterrupt => false | _ => true end.

(** The texts the script prints, one constructor per [print] call of the
    source (with the values interpolated in its f-string). *)
Inductive message :=
| WarnMissingColumns (file : string)
| WarnRatingRange (rating : float) (row_num : Z) (file : string)
| WarnRatingFormat (row_num : Z) (file : string)
| WarnNoValidData (file : string)
| ErrNotFound (file : string)
| ErrNoAccess (file : string)
| ErrRead (file : string) (e : exn)
| ErrNoData
| WarnSkipped (skipped_count : Z)
| ErrNothingToAverage
| ErrNotExists (file : string)
| ErrNotCsv (file : string)
| ErrNoValidFiles
| MsgEmptyReport
| Table (report_data : list report_row)
| MsgInterrupted
| ErrUnexpected (e : exn).

Inductive stream := Stdout | Stderr.

Record event := Write { target : stream; text : message }.

Inductive outcome (A : Type) :=
| Return (a : A)
| Raise (e : exn).
Arguments Return {A} a.
Arguments Raise {A} e.

(** A computation: what it wrote, in order, and how it ended. *)
Definition M (A : Type) : Type := list event * outcome A.

Definition ret {A} (a : A) : M A := ([], Return a).

Definition raise {A} (e : exn) : M A := ([], Raise e).

Definition bind {A B} (m : M A) (k : A -> M B) : M B :=
  match m with
  | (log, Return a) => let '(log', r) := k a in ((log ++ log')%list, r)
  | (log, Raise e) => (log, Raise e)
  end.

Notation "x <- m ;; k" := (bind m (fun x => k))
  (at level 90, m at level 80, right associativity).
Notation "m ;;; k" := (bind m (fun _ => k))
  (at level 90, right associativity).

(** [try: m except ...: handler]; [handler e = None] when no clause
    matches [e]. *)
Definition try_except {A} (m : M A) (handler : exn -> option (M A)) : M A :=
  match m with
  | (log, Raise e) =>
      match handler e with
      | Some h => let '(log', r) := h in ((log ++ log')%list, r)
      | None => (log, Raise e)
      end
  | _ => m
  end.

Definition lift {A} (o : outcome A) : M A := ([], o).

(** [print(...)]: the source passes no [file] argument, so the text goes to
    [sys.stdout]. *)
Definition print (msg : message) : M unit := ([Write Stdout msg], Return tt).

(** [sys.exit(code)] *)
Definition sys_exit {A} (code : Z) : M A := raise (SystemExit code).

Definition trace {A} (m : M A) : list event := fst m.

Definition result {A} (m : M A) : outcome A := snd m.

(** Exit status of the process that runs [m] as its main program. *)
Definition exit_status {A} (m : M A) : Z :=
  match result m with
  | Return _ => 0
  | Raise (SystemExit code) => code
  | Raise _ => 1
  end.

(** ** The files

    Opening, decoding and splitting a file into named fields is the work of
    [open] and [csv.DictReader]; a file is given by what they deliver. *)

Inductive csv_file :=
| Unreadable (e : exn)
    (* [open] or the reading of the header raises [e] *)
| Csv (fieldnames : option (list string)) (rows : list row)
      (failure : option exn).
    (* the header, the rows the reader yields and, when [failure] is
       [Some e], the exception it raises after them *)

Record file_state := FileState {
  isfile : bool;        (* os.path.isfile(file) *)
  readable : bool;      (* os.access(file, os.R_OK) *)
  contents : csv_file
}.

Definition filesystem := string -> file_state.

(** ** [read_csv_files] *)

Definition has_field (fieldnames : list string) (name : string) : bool :=
  existsb (String.eqb name) fieldnames.

(** [reader.fieldnames is None or not all(field in reader.fieldnames ...)] *)
Definition missing_columns (fieldnames : option (list string)) : bool :=
  match fieldnames with
  | None => true
  | Some names => negb (forallb (has_field names) ["brand"; "rating"])
  end.

(** [v.strip()]: only a [str] has the method. *)
Definition py_strip (v : value) : M string :=
  match v with
  | VStr s => ret (PyStr.strip s)
  | _ => raise AttributeError
  end.

(** [row[name]] *)
Definition getitem (r : row) (name : string) : M value :=
  match r !! field name with
  | Some v => ret v
  | None => raise KeyError
  end.

(** [float(s)] *)
Definition py_float (s : string) : M float :=
  match FloatParse.parse s with
  | Some x => ret x
  | None => raise ValueError
  end.

(** The body of the loop over the rows of a file (lines 25-52): the Record
    to append to [data], or [None] when the row is skipped. *)
Definition process_row (file : string) (row_num : Z) (r : row)
  : M (option row) :=
  try_except
    (if negb (truthy (get r "brand")) || negb (truthy (get r "rating"))
     then ret None
     else
       b <- getitem r "brand" ;;
       brand <- py_strip b ;;
       x <- getitem r "rating" ;;
       rating_str <- py_strip x ;;
       if negb (PyStr.nonempty brand) || negb (PyStr.nonempty rating_str)
       then ret None
       else
         rating <- py_float rating_str ;;
         if ltb rating (of_Z 0) || gtb rating (of_Z 5)
         then print (WarnRatingRange rating row_num file) ;;; ret None
         else
           ret (Some (<[field "rating" := VFloat rating]>
                        (<[field "brand" := VStr brand]> r))))
    (fun e =>
       match e with
       | ValueError | TypeError =>
           Some (print (WarnRatingFormat row_num file) ;;; ret None)
       | _ => None
       end).

(** [for row_num, row in enumerate(reader, 2)]: the state is [data] and
    [rows_processed]. *)
Fixpoint read_rows (file : string) (row_num : Z) (rows : list row)
    (data : list row) (rows_processed : Z) : M (list row * Z) :=
  match rows with
  | [] => ret (data, rows_processed)
  | r :: rows' =>
      accepted <- process_row file row_num r ;;
      match accepted with
      | Some record =>
          read_rows file (row_num + 1) rows' (data ++ [record])%list
            (rows_processed + 1)
      | None => read_rows file (row_num + 1) rows' data rows_processed
      end
  end.

(** The body of the loop over the files (lines 14-65). *)
Definition read_file (fs : filesystem) (file : string) (data : list row)
  : M (list row) :=
  try_except
    (match contents (fs file) with
     | Unreadable e => raise e
     | Csv fieldnames rows failure =>
         if missing_columns fieldnames
         then print (WarnMissingColumns file) ;;; ret data
         else
           st <- read_rows file 2 rows data 0 ;;
           match failure with
           | Some e => raise e
           | None =>
               (if (snd st =? 0)%Z then print (WarnNoValidData file) else ret tt) ;;;
               ret (fst st)
           end
     end)
    (fun e =>
       match e with
       | FileNotFoundError => Some (print (ErrNotFound file) ;;; sys_exit 1)
       | PermissionError => Some (print (ErrNoAccess file) ;;; sys_exit 1)
       | _ =>
           if is_Exception e
           then Some (print (ErrRead file e) ;;; sys_exit 1)
           else None
       end).

(** [for file in files] *)
Fixpoint read_files (fs : filesystem) (files : list string)
    (data : list row) : M (list row) :=
  match files with
  | [] => ret data
  | file :: files' =>
      data' <- read_file fs file data ;; read_files fs files' data'
  end.

Definition read_csv_files (fs : filesystem) (files : list string)
  : M (list row) :=
  data <- read_files fs files [] ;;
  match data with
  | [] => print ErrNoData ;;; sys_exit 1
  | _ => ret data
  end.

(** ** [calculate_average_rating] *)

(** [sum] over floats adds from left to right up to CPython 3.11 and keeps a
    compensation term (Neumaier) from 3.12 on. *)
Inductive summation := Plain | Compensated.

Fixpoint sum_plain (acc : float) (l : list value) : outcome float :=
  match l with
  | [] => Return acc
  | VFloat x :: l' => sum_plain (add acc x) l'
  | _ => Raise TypeError
  end.

Fixpoint sum_compensated (hi lo : float) (l : list value) : outcome float :=
  match l with
  | [] =>
      Return match lo with S754_finite _ _ _ => add hi lo | _ => hi end
  | VFloat x :: l' =>
      let t := add hi x in
      let c :=
        if geb (abs hi) (abs x) then add (sub hi t) x else add (sub x t) hi in
      sum_compensated t (add lo c) l'
  | _ => Raise TypeError
  end.

(** [sum(ratings)]: the start value is the [int] 0, and an operand that is
    no number raises [TypeError]. *)
Definition py_sum (alg : summation) (l : list value) : outcome float :=
  match l with
  | [] => Return zero
  | VFloat x :: l' =>
      match alg with
      | Plain => sum_plain (add (of_Z 0) x) l'
      | Compensated => sum_compensated (add (of_Z 0) x) zero l'
      end
  | _ => Raise TypeError
  end.

(** [sum(ratings) / len(ratings)] *)
Definition mean (alg : summation) (ratings : list value) : outcome float :=
  match py_sum alg ratings with
  | Return s =>
      match ratings with
      | [] => Raise ZeroDivisionError
      | _ => Return (div s (of_Z (Z.of_nat (List.length ratings))))
      end
  | Raise e => Raise e
  end.

(** [defaultdict(list)]: the brands in the order of their insertion, each
    with its ratings. *)
Abbreviation brand_table := (list (value * list value)).

(** [brand_ratings[brand].append(rating)] *)
Fixpoint append_rating (b x : value) (t : brand_table) : brand_table :=
  match t with
  | [] => [(b, [x])]
  | (b', xs) :: t' =>
      if key_eqb b' b then (b', (xs ++ [x])%list) :: t'
      else (b', xs) :: append_rating b x t'
  end.

(** The [try] block of lines 80-83; [None] stands for the [KeyError] of a
    missing key or the [TypeError] of an unhashable brand. *)
Definition add_row (r : row) (t : brand_table) : option brand_table :=
  match r !! field "brand", r !! field "rating" with
  | Some b, Some x => if hashable b then Some (append_rating b x t) else None
  | _, _ => None
  end.

(** [for row in data] (lines 79-86) *)
Fixpoint group_rows (data : list row) (brand_ratings : brand_table)
    (skipped_count : Z) : brand_table * Z :=
  match data with
  | [] => (brand_ratings, skipped_count)
  | r :: data' =>
      match add_row r brand_ratings with
      | Some t => group_rows data' t skipped_count
      | None => group_rows data' brand_ratings (skipped_count + 1)
      end
  end.

(** [for brand, ratings in brand_ratings.items()] (lines 95-98) *)
Fixpoint build_report (alg : summation) (t : brand_table)
  : outcome (list report_row) :=
  match t with
  | [] => Return []
  | (b, ratings) :: t' =>
      match mean alg ratings with
      | Return avg_rating =>
          match build_report alg t' with
          | Return report => Return (ReportRow b (round2 avg_rating) :: report)
          | Raise e => Raise e
          end
      | Raise e => Raise e
      end
  end.

(** [sorted(report, key=..., reverse=True)]: a stable sort by decreasing
    key, which uses [<] only. A row goes in front of the sorted rest of the
    list unless its key is smaller than the key at the front. Python
    promises this result when [<] orders the keys; with a NaN among the
    keys of several rows the order [list.sort] leaves depends on its
    algorithm, and no statement below is about that order. *)
Fixpoint insert_row (x : report_row) (l : list report_row)
  : list report_row :=
  match l with
  | [] => [x]
  | y :: l' =>
      if ltb (average_rating x) (average_rating y)
      then y :: insert_row x l'
      else x :: l
  end.

Definition sorted_reverse (report : list report_row) : list report_row :=
  fold_right insert_row [] report.

Definition calculate_average_rating (alg : summation) (data : list row)
  : M (list report_row) :=
  let '(brand_ratings, skipped_count) := group_rows data [] 0 in
  (if (0 <? skipped_count)%Z then print (WarnSkipped skipped_count) else ret tt) ;;;
  match brand_ratings with
  | [] => print ErrNothingToAverage ;;; ret []
  | _ =>
      report <- lift (build_report alg brand_ratings) ;;
      ret (sorted_reverse report)
  end.

(** ** [main] *)

Record arguments := Arguments { files : list string; report : string }.

Definition handler := list row -> M (list report_row).

(** [for file in args.files] (lines 117-128) *)
Fixpoint validate (fs : filesystem) (candidates valid_files : list string)
  : M (list string) :=
  match candidates with
  | [] => ret valid_files
  | file :: rest =>
      if negb (isfile (fs file))
      then print (ErrNotExists file) ;;; sys_exit 1
      else if negb (PyStr.endswith (PyStr.lower file) ".csv")
      then print (ErrNotCsv file) ;;; sys_exit 1
      else if negb (readable (fs file))
      then print (ErrNoAccess file) ;;; sys_exit 1
      else validate fs rest (valid_files ++ [file])%list
  end.

(** [report_handlers[name]] *)
Fixpoint lookup_handler (report_handlers : list (string * handler))
    (name : string) : M handler :=
  match report_handlers with
  | [] => raise KeyError
  | (k, h) :: rest =>
      if String.eqb k name then ret h else lookup_handler rest name
  end.

(** [main], for the outcome [parsed] of [parser.parse_args()] and a registry
    of report handlers. *)
Definition main_with (report_handlers : list (string * handler))
    (fs : filesystem) (parsed : outcome arguments) : M unit :=
  try_except
    (args <- lift parsed ;;
     valid_files <- validate fs (files args) [] ;;
     match valid_files with
     | [] => print ErrNoValidFiles ;;; sys_exit 1
     | _ =>
         data <- read_csv_files fs valid_files ;;
         h <- lookup_handler report_handlers (report args) ;;
         report_data <- h data ;;
         match report_data with
         | [] => print MsgEmptyReport ;;; sys_exit 0
         | _ => print (Table report_data)
         end
     end)
    (fun e =>
       match e with
       | KeyboardInterrupt => Some (print MsgInterrupted ;;; sys_exit 1)
       | SystemExit _ => None
       | _ => Some (print (ErrUnexpected e) ;;; sys_exit 1)
       end).

Definition main (alg : summation) : filesystem -> outcome arguments -> M unit :=
  main_with [("average-rating", calculate_average_rating alg)].

(** ** Literals for the examples *)

(** A [dict] with [str] keys, written as its items. *)
Definition dict (items : list (string * value)) : row :=
  list_to_map (map (fun kv => (field (fst kv), snd kv)) items).

(** The float a decimal literal such as [4.7] denotes. *)
Definition lit (text : string) : float :=
  match FloatParse.parse text with Some x => x | None => nan end.

(** A Record as the tests write it: [{'brand': b, 'rating': x}]. *)
Definition record (b : string) (x : string) : row :=
  dict [("brand", VStr b); ("rating", VFloat (lit x))].

(** A row of a file with the columns of the test suite. *)
Definition csv_row (name brand price rating : string) : row :=
  dict [("name", VStr name); ("brand", VStr brand); ("price", VStr price);
        ("rating", VStr rating)].

(** A file system in which every path is a readable file with the header
    [name,brand,price,rating] and the given rows. *)
Definition one_file (rows : list row) : filesystem :=
  fun _ => FileState true true
             (Csv (Some ["name"; "brand"; "price"; "rating"]) rows None).

(** [--files phones.csv --report average-rating] *)
Definition phones : outcome arguments :=
  Return (Arguments ["phones.csv"] "average-rating").

(** ** Notions used in the statements *)

(** The brand and the rating of a row ([None] when the key is absent). *)
Definition brand_of (r : row) : value := get r "brand".

Definition rating_of (r : row) : value := get r "rating".

(** [0 <= x <= 5] *)
Definition in_range (x : float) : bool := geb x (of_Z 0) && leb x (of_Z 5).

(** A row with a [str] brand and a finite [float] rating (neither NaN nor
    an infinity). The Records of the data model, whose ratings are within
    [0, 5], are such rows. *)
Definition is_rated (r : row) : bool :=
  match r !! field "brand", r !! field "rating" with
  | Some (VStr _), Some (VFloat x) => is_finite x
  | _, _ => false
  end.

(** The ratings of the rows of brand [b], in the order of the rows. *)
Definition ratings_of (b : value) (data : list row) : list value :=
  map rating_of (List.filter (fun r => key_eqb (brand_of r) b) data).

(** The position of the first row of brand [b] (the length of [data] when
    there is none). *)
Fixpoint first_seen (b : value) (data : list row) : nat :=
  match data with
  | [] => 0%nat
  | r :: data' => if key_eqb (brand_of r) b then 0%nat else S (first_seen b data')
  end.

(** [a] stands before [b] in [l]. *)
Fixpoint before {A} (l : list A) (a b : A) : Prop :=
  match l with
  | [] => False
  | x :: l' => (x = a /\ In b l') \/ before l' a b
  end.

(** [sys.maxsize], the largest length of a list. *)
Definition maxsize : Z := 2 ^ 63 - 1.

(** Rows in decreasing order of their average: [a >= b] whenever [a] stands
    before [b]. *)
Definition descending (report : list report_row) : Prop :=
  StronglySorted
    (fun a b => geb (average_rating a) (average_rating b) = true) report.

(** No write to the error stream. *)
Definition on_stdout (e : event) : Prop := target e = Stdout.

(** The event that prints the table. *)
Definition is_table (e : event) : bool :=
  match text e with Table _ => true | _ => false end.

(** The rows [csv.DictReader] yields for a file. *)
Definition rows_of (fs : filesystem) (file : string) : list row :=
  match contents (fs file) with
  | Csv _ rows _ => rows
  | Unreadable _ => []
  end.

(** All that a computation writes satisfies [P]. *)
Definition all_events {A} (P : event -> Prop) (m : M A) : Prop :=
  Forall P (trace m).

(** A message on standard output that is not the table. *)
Definition diagnostic (e : event) : Prop :=
  target e = Stdout /\ is_table e = false.

(** What the specification asks of a trace: the diagnostics go to the error
    stream, so that only the table is on standard output. *)
Definition diagnostics_on_stderr (tr : list event) : Prop :=
  forall e, In e tr -> is_table e = false -> target e = Stderr.

(** ** Notions used in the proofs *)

(** A rating that is a finite [float]. *)
Definition finite_rating (v : value) : Prop :=
  match v with VFloat x => is_finite x = true | _ => False end.

(** A report row whose average is a number. *)
Definition number_row (x : report_row) : Prop :=
  is_nan (average_rating x) = false.

(** A brand that is a [str]. *)
Definition is_str (v : value) : Prop := exists s, v = VStr s.

(** Rows that are all rated. *)
Abbreviation rated_rows data := (Forall (fun r => is_rated r = true) data).

(** One round of the loop of lines 79-86 on a rated row. *)
Definition step (t : brand_table) (r : row) : brand_table :=
  append_rating (brand_of r) (rating_of r) t.

(** The table whose keys are [ks], each with its ratings in [seen]. *)
Definition table_of (seen : list row) (ks : list value) : brand_table :=
  map (fun c => (c, ratings_of c seen)) ks.

(** What the table built from the rows [seen] satisfies: its keys are the
    brands seen, once each, in the order of their first rows. *)
Record grouped (seen : list row) (ks : list value) : Prop := Grouped {
  grouped_nodup : List.NoDup ks;
  grouped_str : Forall is_str ks;
  grouped_brands : forall c, In c ks <-> In c (map brand_of seen);
  grouped_order : forall a b,
    before ks a b -> (first_seen a seen < first_seen b seen)%nat
}.

(** What a report row says about the rows of its brand: its average is their
    mean, rounded to two places. *)
Definition averages (alg : summation) (data : list row) (x : report_row)
  : Prop :=
  exists m, mean alg (ratings_of (brand x) data) = Return m
            /\ average_rating x = round2 m.

(** [record] is the row [r] with its brand trimmed and its rating parsed. *)
Definition accepted (r record : row) : Prop :=
  exists b s x,
    r !! field "brand" = Some (VStr b)
    /\ r !! field "rating" = Some (VStr s)
    /\ PyStr.nonempty (PyStr.strip b) = true
    /\ FloatParse.parse (PyStr.strip s) = Some x
    /\ ltb x (of_Z 0) = false /\ gtb x (of_Z 5) = false
    /\ record = <[field "rating" := VFloat x]>
                  (<[field "brand" := VStr (PyStr.strip b)]> r).

(** A Record accepted from one of [rows]. *)
Definition from_rows (rows : list row) (record : row) : Prop :=
  exists r, In r rows /\ accepted r record.

(** ** Notions used in the further properties *)

(** A field as [csv.DictReader] delivers it under a column name: a [str],
    or [None] for a field the line lacks. *)
Definition is_text (v : value) : bool :=
  match v with VNone | VStr _ => true | _ => false end.

(** A field that is absent, empty or made of white space only. *)
Definition blank (v : value) : bool :=
  match v with
  | VNone => true
  | VStr s => negb (PyStr.nonempty (PyStr.strip s))
  | _ => false
  end.

(** The Record a row gives, if it gives one. *)
Definition record_of (r : row) : option row :=
  match r !! field "brand", r !! field "rating" with
  | Some (VStr b), Some (VStr s) =>
      match FloatParse.parse (PyStr.strip s) with
      | Some x =>
          if PyStr.nonempty (PyStr.strip b) && PyStr.nonempty (PyStr.strip s)
             && negb (ltb x (of_Z 0)) && negb (gtb x (of_Z 5))
          then Some (<[field "rating" := VFloat x]>
                       (<[field "brand" := VStr (PyStr.strip b)]> r))
          else None
      | None => None
      end
  | _, _ => None
  end.

(** The Records of a file: none when its header lacks a required column. *)
Definition records_of (fs : filesystem) (file : string) : list row :=
  match contents (fs file) with
  | Csv fieldnames rows _ =>
      if missing_columns fieldnames then [] else omap record_of rows
  | Unreadable _ => []
  end.

(** A row whose rating text is no number: its brand and its rating are not
    blank, and [float] rejects the rating. *)
Definition bad_format (r : row) : Prop :=
  exists b s,
    r !! field "brand" = Some (VStr b) /\ r !! field "rating" = Some (VStr s)
    /\ PyStr.nonempty (PyStr.strip b) = true
    /\ PyStr.nonempty (PyStr.strip s) = true
    /\ FloatParse.parse (PyStr.strip s) = None.

(** A row whose rating [x] fails the range check. *)
Definition out_of_range (r : row) (x : float) : Prop :=
  exists b s,
    r !! field "brand" = Some (VStr b) /\ r !! field "rating" = Some (VStr s)
    /\ PyStr.nonempty (PyStr.strip b) = true
    /\ PyStr.nonempty (PyStr.strip s) = true
    /\ FloatParse.parse (PyStr.strip s) = Some x
    /\ ltb x (of_Z 0) || gtb x (of_Z 5) = true.

(** The computation [m] with [g] applied to what it returns. *)
Definition map_result {A B} (g : A -> B) (m : M A) : M B :=
  (trace m,
   match result m with Return a => Return (g a) | Raise e => Raise e end).

(** A warning about a row names the file and the number of a row of this
    kind: the rows of a file are numbered from [first] on. *)
Definition names_row (file : string) (first : Z) (rows : list row)
    (e : event) : Prop :=
  match text e with
  | WarnRatingFormat n f =>
      f = file /\ first <= n
      /\ exists r, rows !! Z.to_nat (n - first) = Some r /\ bad_format r
  | WarnRatingRange x n f =>
      f = file /\ first <= n
      /\ exists r, rows !! Z.to_nat (n - first) = Some r /\ out_of_range r x
  | _ => False
  end.

(** The same for the messages of a whole run: the first data row of a file
    has the number 2, its header being line 1. *)
Definition warning_names_row (fs : filesystem) (files : list string)
    (e : event) : Prop :=
  match text e with
  | WarnRatingFormat _ f | WarnRatingRange _ _ f =>
      In f files /\ names_row f 2 (rows_of fs f) e
  | _ => True
  end.

(** The file has a header with the columns [brand] and [rating]. *)
Definition header_ok (fs : filesystem) (file : string) : bool :=
  match contents (fs file) with
  | Csv fieldnames _ _ => negb (missing_columns fieldnames)
  | Unreadable _ => false
  end.

(** The exception that reading the file raises, if it raises one: at once,
    or after its rows when its header has the required columns. *)
Definition read_error (fs : filesystem) (file : string) : option exn :=
  match contents (fs file) with
  | Unreadable e => Some e
  | Csv fieldnames _ failure =>
      if missing_columns fieldnames then None else failure
  end.

(** The message for a file that cannot be opened or read (lines 57-65). *)
Definition read_failure (file : string) (e : exn) : message :=
  match e with
  | FileNotFoundError => ErrNotFound file
  | PermissionError => ErrNoAccess file
  | _ => ErrRead file e
  end.

(** A row that the loop of lines 79-86 keeps: it has the keys [brand] and
    [rating], and its brand is hashable. *)
Definition usable (r : row) : bool :=
  match r !! field "brand", r !! field "rating" with
  | Some b, Some _ => hashable b
  | _, _ => false
  end.

Definition is_float (v : value) : bool :=
  match v with VFloat _ => true | _ => false end.

(** All ratings in the table are floats. *)
Definition numbers (t : brand_table) : bool :=
  forallb (fun entry => forallb is_float (snd entry)) t.

(** The three checks of lines 118-126 on one path. *)
Definition valid (fs : filesystem) (file : string) : bool :=
  isfile (fs file) && PyStr.endswith (PyStr.lower file) ".csv"
  && readable (fs file).

(** The message for a path that fails them: the first check that fails
    decides. *)
Definition complaint (fs : filesystem) (file : string) : message :=
  if negb (isfile (fs file)) then ErrNotExists file
  else if negb (PyStr.endswith (PyStr.lower file) ".csv") then ErrNotCsv file
  else ErrNoAccess file.

(** Reading no file ends the process by itself: no [SystemExit] comes out
    of [open] or of the CSV reader. *)
Definition no_exit_on_read (fs : filesystem) : Prop :=
  forall file code, read_error fs file <> Some (SystemExit code).

(** ** Further literals for the examples *)

(** A readable file with the header [name,brand,price,rating] and the
    given rows. *)
Definition csv (rows : list row) : file_state :=
  FileState true true
    (Csv (Some ["name"; "brand"; "price"; "rating"]) rows None).

(** The file system that holds the listed files and no other path. *)
Definition files_of (listing : list (string * file_state)) : filesystem :=
  fun file =>
    match List.find (fun entry => String.eqb (fst entry) file) listing with
    | Some entry => snd entry
    | None => FileState false false (Unreadable FileNotFoundError)
    end.

(** The Record of the row [name,brand,price,rating] whose brand and rating
    need no trimming. *)
Definition record_row (name brand price rating : string) : row :=
  <[field "rating" := VFloat (lit rating)]> (csv_row name brand price rating).

(** * Properties *)

(** ** Floats: which operations can yield NaN *)

Module PyFloatFacts.
Import PyFloat.

Lemma iter_pos_invariant {A} (f : A -> A) (Inv : A -> Prop) :
  (forall x, Inv x -> Inv (f x)) ->
  forall p x, Inv x -> Inv (SpecFloat.iter_pos f p x).
Proof.
  intros Hf p; induction p as [p IH | p IH | ]; intros x Hx; simpl; auto.
Qed.

Lemma shr_1_nonneg r : 0 <= shr_m r -> 0 <= shr_m (shr_1 r).
Proof.
  destruct r as [m r s]; simpl.
  destruct m as [ | [p | p | ] | p]; simpl; lia.
Qed.

Lemma shr_nonneg r e n : 0 <= shr_m r -> 0 <= shr_m (fst (shr r e n)).
Proof.
  intros Hr; destruct n as [ | p | p]; simpl; auto.
  apply iter_pos_invariant; auto using shr_1_nonneg.
Qed.

Lemma shr_record_of_loc_m m l : shr_m (shr_record_of_loc m l) = m.
Proof. destruct l as [ | [ | | ]]; reflexivity. Qed.

Lemma shr_fexp_nonneg pr em m e l :
  0 <= m -> 0 <= shr_m (fst (shr_fexp pr em m e l)).
Proof.
  intros Hm; unfold shr_fexp.
  apply shr_nonneg; rewrite shr_record_of_loc_m; exact Hm.
Qed.

Lemma round_nearest_even_nonneg m l : 0 <= m -> 0 <= round_nearest_even m l.
Proof.
  intros Hm; destruct l as [ | [ | | ]]; simpl; try lia.
  destruct (Z.even m); lia.
Qed.

(** Rounding a non-negative mantissa gives a zero, a finite number or an
    infinity. *)
Lemma binary_round_aux_not_nan pr em s m e l :
  0 <= m -> is_nan (binary_round_aux pr em s m e l) = false.
Proof.
  intros Hm; unfold binary_round_aux.
  pose proof (shr_fexp_nonneg pr em m e l Hm) as H1.
  destruct (shr_fexp pr em m e l) as [mrs' e']; simpl in H1.
  pose proof (shr_fexp_nonneg pr em _ e' loc_Exact
                (round_nearest_even_nonneg _ (loc_of_shr_record mrs') H1))
    as H2.
  destruct (shr_fexp pr em _ e' loc_Exact) as [mrs'' e'']; simpl in H2.
  destruct (shr_m mrs'') as [ | p | p]; try reflexivity; try lia.
  destruct (e'' <=? em - pr); reflexivity.
Qed.

Lemma binary_normalize_not_nan pr em m e sz :
  is_nan (binary_normalize pr em m e sz) = false.
Proof.
  destruct m as [ | p | p]; simpl; try reflexivity;
    unfold binary_round;
    destruct (shl_align _ _ _) as [mz ez];
    apply binary_round_aux_not_nan; lia.
Qed.

(** Adding a finite number to a number gives a number. *)
Lemma add_not_nan x y :
  is_nan x = false -> is_finite y = true -> is_nan (add x y) = false.
Proof.
  destruct x as [sx | sx | | sx mx ex], y as [sy | sy | | sy my ey];
    simpl; try discriminate; intros _ _;
    try (destruct sx, sy; reflexivity); try reflexivity.
  apply binary_normalize_not_nan.
Qed.

Lemma div_eucl_nonneg a b : 0 <= a -> 0 < b -> 0 <= fst (Z.div_eucl a b).
Proof.
  intros Ha Hb.
  pose proof (Z.div_pos a b Ha Hb) as H.
  unfold Z.div in H. destruct (Z.div_eucl a b); exact H.
Qed.

Lemma SFdiv_core_nonneg pr em m1 e1 m2 e2 :
  0 <= fst (fst (SFdiv_core_binary pr em (Zpos m1) e1 (Zpos m2) e2)).
Proof.
  unfold SFdiv_core_binary.
  set (sh := _ - _ - _).
  set (m' := match sh with Z0 => _ | Zpos _ => _ | Zneg _ => _ end).
  assert (Hm' : 0 <= m').
  { subst m'; destruct sh; try lia. apply Z.shiftl_nonneg; lia. }
  pose proof (div_eucl_nonneg m' (Zpos m2) Hm' ltac:(lia)) as H.
  destruct (Z.div_eucl m' (Zpos m2)) as [q r]; exact H.
Qed.

(** Dividing a number by a finite non-zero number gives a number. *)
Lemma div_not_nan x sy my ey :
  is_nan x = false -> is_nan (div x (S754_finite sy my ey)) = false.
Proof.
  destruct x as [sx | sx | | sx mx ex]; simpl; try discriminate;
    intros _; try reflexivity.
  pose proof (SFdiv_core_nonneg prec emax mx ex my ey) as H.
  destruct (SFdiv_core_binary prec emax (Zpos mx) ex (Zpos my) ey)
    as [[mz ez] lz]; simpl in H.
  apply binary_round_aux_not_nan; exact H.
Qed.

Lemma of_ratio_not_nan s n d : is_nan (of_ratio s n d) = false.
Proof.
  unfold of_ratio.
  pose proof (SFdiv_core_nonneg prec emax n 0 d 0) as H.
  destruct (SFdiv_core_binary prec emax (Zpos n) 0 (Zpos d) 0)
    as [[q e] l]; simpl in H.
  apply binary_round_aux_not_nan; exact H.
Qed.

(** [round(x, 2)] of a number is a number. *)
Lemma round2_not_nan x : is_nan x = false -> is_nan (round2 x) = false.
Proof.
  destruct x as [s | s | | s m e]; simpl; try discriminate; intros _;
    try reflexivity.
  match goal with |- context [match ?k with Z0 => _ | Zpos _ => _ | Zneg _ => _ end] =>
    destruct k end; try reflexivity.
  apply of_ratio_not_nan.
Qed.

(** *** The number of binary digits *)

Lemma digits2_pos_bounds p :
  2 ^ (Zpos (digits2_pos p) - 1) <= Zpos p < 2 ^ Zpos (digits2_pos p).
Proof.
  induction p as [p IH | p IH | ]; simpl digits2_pos;
    rewrite ?Pos2Z.inj_succ; try (simpl; lia).
  - replace (Z.succ (Zpos (digits2_pos p)) - 1) with
      (Z.succ (Zpos (digits2_pos p) - 1)) by lia.
    rewrite !Z.pow_succ_r by lia. lia.
  - replace (Z.succ (Zpos (digits2_pos p)) - 1) with
      (Z.succ (Zpos (digits2_pos p) - 1)) by lia.
    rewrite !Z.pow_succ_r by lia. lia.
Qed.

Lemma digits2_pos_unique p d :
  2 ^ (d - 1) <= Zpos p < 2 ^ d -> Zpos (digits2_pos p) = d.
Proof.
  intros [Hlo Hhi].
  pose proof (digits2_pos_bounds p) as [Blo Bhi].
  assert (Hd : 0 < d).
  { destruct (Z_lt_le_dec 0 d) as [ | Hd]; [assumption | exfalso].
    destruct (Z.eq_dec d 0) as [-> | ]; [simpl in Hhi; lia | ].
    rewrite (Z.pow_neg_r 2 d) in Hhi by lia. lia. }
  destruct (Z.lt_trichotomy (Zpos (digits2_pos p)) d) as [Hlt | [ | Hgt]];
    [exfalso | assumption | exfalso].
  - pose proof (Z.pow_le_mono_r 2 (Zpos (digits2_pos p)) (d - 1)
                  ltac:(lia) ltac:(lia)). lia.
  - pose proof (Z.pow_le_mono_r 2 d (Zpos (digits2_pos p) - 1)
                  ltac:(lia) ltac:(lia)). lia.
Qed.

Lemma digits2_pos_le p k : Zpos p < 2 ^ k -> Zpos (digits2_pos p) <= k.
Proof.
  intros Hp. pose proof (digits2_pos_bounds p) as [Blo _].
  destruct (Z_le_gt_dec (Zpos (digits2_pos p)) k) as [ | Hgt];
    [assumption | exfalso].
  pose proof (Z.pow_le_mono_r 2 k (Zpos (digits2_pos p) - 1)
                ltac:(lia) ltac:(lia)). lia.
Qed.

Lemma digits2_pos_iter_xO p k :
  Zpos (digits2_pos (Pos.iter xO p k)) = Zpos (digits2_pos p) + Zpos k.
Proof.
  induction k as [ | k IH] using Pos.peano_ind.
  - simpl. lia.
  - rewrite Pos.iter_succ. simpl digits2_pos. lia.
Qed.

(** *** Shifting a mantissa to the right *)

Lemma shr_1_digits r m :
  shr_m r = Zpos m -> 1 < Zpos (digits2_pos m) ->
  exists m', shr_m (shr_1 r) = Zpos m'
             /\ Zpos (digits2_pos m') = Zpos (digits2_pos m) - 1.
Proof.
  destruct r as [mr rr sr]; simpl; intros -> Hd.
  destruct m as [p | p | ]; simpl in *; try lia;
    exists p; split; try reflexivity; lia.
Qed.

Lemma iter_shr_1_digits k : forall r m,
  shr_m r = Zpos m -> Zpos k < Zpos (digits2_pos m) ->
  exists m', shr_m (SpecFloat.iter_pos shr_1 k r) = Zpos m'
             /\ Zpos (digits2_pos m') = Zpos (digits2_pos m) - Zpos k.
Proof.
  induction k as [k IH | k IH | ]; intros r m Hr Hk; simpl.
  - destruct (shr_1_digits r m Hr ltac:(lia)) as (m1 & H1 & D1).
    destruct (IH _ m1 H1 ltac:(lia)) as (m2 & H2 & D2).
    destruct (IH _ m2 H2 ltac:(lia)) as (m3 & H3 & D3).
    exists m3; split; [exact H3 | lia].
  - destruct (IH _ m Hr ltac:(lia)) as (m2 & H2 & D2).
    destruct (IH _ m2 H2 ltac:(lia)) as (m3 & H3 & D3).
    exists m3; split; [exact H3 | lia].
  - apply shr_1_digits; assumption.
Qed.

Lemma fexp_normal d : - 1021 <= d -> fexp prec emax d = d - 53.
Proof. unfold fexp, emin, prec, emax; lia. Qed.

Lemma shr_fexp_canonical m e :
  Zpos (digits2_pos m) = 53 -> - 1074 <= e ->
  shr_fexp prec emax (Zpos m) e loc_Exact
  = (Build_shr_record (Zpos m) false false, e).
Proof.
  intros Hm He. unfold shr_fexp. simpl Zdigits2. rewrite Hm.
  rewrite fexp_normal by lia.
  replace (53 + e - 53 - e) with 0 by lia. reflexivity.
Qed.

(** A mantissa of 53 digits with an exponent in range is a float as it
    stands. *)
Lemma binary_round_aux_canonical s m e :
  Zpos (digits2_pos m) = 53 -> - 1074 <= e <= 971 ->
  binary_round_aux prec emax s (Zpos m) e loc_Exact = S754_finite s m e.
Proof.
  intros Hd He. unfold binary_round_aux.
  rewrite (shr_fexp_canonical m e Hd) by lia. simpl.
  rewrite (shr_fexp_canonical m e Hd) by lia. simpl.
  replace (e <=? emax - prec) with true; [reflexivity | ].
  symmetry; apply Z.leb_le; unfold emax, prec; lia.
Qed.

(** The second shift of [binary_round_aux] removes the digit that rounding
    up may have added. *)
Lemma shr_fexp_carry m e :
  53 <= Zpos (digits2_pos m) <= 54 -> - 1074 <= e ->
  exists r m', shr_fexp prec emax (Zpos m) e loc_Exact = (r, e) /\
               shr_m r = Zpos m'
            \/ shr_fexp prec emax (Zpos m) e loc_Exact = (r, e + 1) /\
               shr_m r = Zpos m'.
Proof.
  intros Hd He.
  destruct (Z.eq_dec (Zpos (digits2_pos m)) 53) as [H53 | H54].
  - exists (Build_shr_record (Zpos m) false false), m. left.
    split; [apply shr_fexp_canonical; assumption | reflexivity].
  - destruct (shr_1_digits (Build_shr_record (Zpos m) false false) m
                eq_refl ltac:(lia)) as (m' & Hm' & _).
    exists (shr_1 (Build_shr_record (Zpos m) false false)), m'. right.
    split; [ | exact Hm'].
    unfold shr_fexp. simpl Zdigits2.
    replace (Zpos (digits2_pos m)) with 54 by lia.
    rewrite fexp_normal by lia.
    replace (54 + e - 53 - e) with 1 by lia. reflexivity.
Qed.

(** The float of a positive [int] up to [sys.maxsize] is finite and not
    zero. *)
Lemma of_Z_finite n :
  0 < n <= maxsize -> exists m e, of_Z n = S754_finite false m e.
Proof.
  intros [Hpos Hmax]. destruct n as [ | p | p]; try lia.
  unfold of_Z; simpl binary_normalize. unfold binary_round.
  set (d := Zpos (digits2_pos p)).
  assert (Hd : 1 <= d <= 63).
  { split; [subst d; lia | ].
    apply digits2_pos_le. unfold maxsize in Hmax. lia. }
  rewrite fexp_normal by (fold d; lia). fold d.
  unfold shl_align.
  destruct (d + 0 - 53 - 0) as [ | k | k] eqn:Hk.
  - (* 53 digits *)
    rewrite binary_round_aux_canonical by (fold d; lia). eauto.
  - (* more than 53 digits: the mantissa is rounded *)
    unfold binary_round_aux, shr_fexp at 1. simpl Zdigits2. fold d.
    rewrite fexp_normal by lia.
    replace (d + 0 - 53 - 0) with (Zpos k) by lia. simpl shr.
    destruct (iter_shr_1_digits k (shr_record_of_loc (Zpos p) loc_Exact) p
                eq_refl ltac:(fold d; lia)) as (m1 & H1 & D1).
    fold d in D1.
    set (mrs' := SpecFloat.iter_pos shr_1 k _) in *.
    set (m2 := round_nearest_even (shr_m mrs') (loc_of_shr_record mrs')).
    assert (Hm2 : exists q, m2 = Zpos q /\ 53 <= Zpos (digits2_pos q) <= 54).
    { pose proof (digits2_pos_bounds m1) as B1.
      replace (Zpos (digits2_pos m1)) with 53 in B1 by lia.
      assert (Hup : 53 <= Zpos (digits2_pos (m1 + 1)) <= 54).
      { pose proof (digits2_pos_bounds (m1 + 1)) as [Blo Bhi].
        split.
        - destruct (Z_le_gt_dec 53 (Zpos (digits2_pos (m1 + 1))));
            [assumption | exfalso].
          pose proof (Z.pow_le_mono_r 2 (Zpos (digits2_pos (m1 + 1))) 52
                        ltac:(lia) ltac:(lia)). lia.
        - apply digits2_pos_le. lia. }
      subst m2. rewrite H1.
      destruct (loc_of_shr_record mrs') as [ | [ | | ]];
        cbv beta iota delta [round_nearest_even].
      - exists m1; split; [reflexivity | lia].
      - destruct (Z.even (Zpos m1)).
        + exists m1; split; [reflexivity | lia].
        + exists (m1 + 1)%positive; split; [lia | exact Hup].
      - exists m1; split; [reflexivity | lia].
      - exists (m1 + 1)%positive; split; [lia | exact Hup]. }
    destruct Hm2 as (q & -> & Hq).
    destruct (shr_fexp_carry q (0 + Zpos k) Hq ltac:(lia))
      as (r & m' & [[-> Hr] | [-> Hr]]); rewrite Hr;
      match goal with |- context [?a <=? ?b] =>
        replace (a <=? b) with true
          by (symmetry; apply Z.leb_le; unfold emax, prec; lia)
      end; eauto.
  - rewrite binary_round_aux_canonical; eauto.
    + rewrite digits2_pos_iter_xO. fold d. lia.
    + fold d. lia.
Qed.

(** *** Comparisons *)

Lemma compare_cont_Eq a b : Pos.compare_cont Eq a b = Pos.compare a b.
Proof. reflexivity. Qed.

Ltac split_compare :=
  repeat match goal with
    | H : context [Pos.compare_cont Eq ?a ?b] |- _ =>
        change (Pos.compare_cont Eq a b) with (Pos.compare a b) in H
    | |- context [Pos.compare_cont Eq ?a ?b] =>
        change (Pos.compare_cont Eq a b) with (Pos.compare a b)
    | H : context [Z.compare ?a ?b] |- _ =>
        destruct (Z.compare_spec a b); try subst
    | H : context [Pos.compare ?a ?b] |- _ =>
        destruct (Pos.compare_spec a b); try subst
    | |- context [Z.compare ?a ?b] =>
        destruct (Z.compare_spec a b); try subst
    | |- context [Pos.compare ?a ?b] =>
        destruct (Pos.compare_spec a b); try subst
    end;
  cbn [CompOpp] in *; try discriminate; try reflexivity; try lia.

(** On numbers, [not (x < y)] is [x >= y]. *)
Lemma ltb_false_geb x y :
  is_nan x = false -> is_nan y = false -> ltb x y = false -> geb x y = true.
Proof.
  unfold geb, ltb, leb, SFltb, SFleb.
  destruct x as [sx | sx | | sx mx ex], y as [sy | sy | | sy my ey];
    simpl; try discriminate; intros _ _;
    try (destruct sx; try destruct sy; simpl; congruence).
  destruct sx, sy; simpl; try congruence; intros H; split_compare.
Qed.

Lemma ltb_leb x y : ltb x y = true -> leb x y = true.
Proof.
  unfold ltb, leb, SFltb, SFleb.
  destruct (SFcompare x y) as [[ | | ] | ]; congruence.
Qed.

Lemma leb_trans x y z : leb x y = true -> leb y z = true -> leb x z = true.
Proof.
  unfold leb, SFleb.
  destruct x as [sx | sx | | sx mx ex], y as [sy | sy | | sy my ey],
    z as [sz | sz | | sz mz ez];
    simpl; try discriminate;
    try (destruct sx; try destruct sy; try destruct sz; simpl; congruence).
  destruct sx, sy, sz; simpl; try congruence; intros H1 H2; split_compare.
Qed.

Lemma eqb_not_ltb x y : eqb x y = true -> ltb y x = false.
Proof.
  unfold eqb, ltb, SFeqb, SFltb.
  destruct x as [sx | sx | | sx mx ex], y as [sy | sy | | sy my ey];
    simpl; try discriminate;
    try (destruct sx; try destruct sy; simpl; congruence).
  destruct sx, sy; simpl; try congruence; intros H; split_compare.
Qed.

Lemma eqb_sym x y : eqb x y = true -> eqb y x = true.
Proof.
  unfold eqb, SFeqb.
  destruct x as [sx | sx | | sx mx ex], y as [sy | sy | | sy my ey];
    simpl; try discriminate;
    try (destruct sx; try destruct sy; simpl; congruence).
  destruct sx, sy; simpl; try congruence; intros H; split_compare.
Qed.

(** A float within [0, 5] is finite: the ratings of the data model are
    finite ratings. *)
Lemma in_range_finite x : in_range x = true -> is_finite x = true.
Proof.
  destruct x as [s | [ | ] | | s m e]; try reflexivity;
    vm_compute; discriminate.
Qed.

End PyFloatFacts.

(** ** Sums and means of finite ratings *)

Import PyFloatFacts.

Lemma sum_plain_number l : forall acc,
  is_nan acc = false -> Forall finite_rating l ->
  exists s, sum_plain acc l = Return s /\ is_nan s = false.
Proof.
  induction l as [ | v l IH]; intros acc Hacc Hl; simpl.
  - eauto.
  - inversion Hl as [ | ? ? Hv Hl']; subst.
    destruct v as [ | | x | ]; simpl in Hv; try contradiction.
    apply IH; auto using add_not_nan.
Qed.

Lemma sum_compensated_number l : forall hi lo,
  is_nan hi = false -> Forall finite_rating l ->
  exists s, sum_compensated hi lo l = Return s /\ is_nan s = false.
Proof.
  induction l as [ | v l IH]; intros hi lo Hhi Hl; simpl.
  - destruct lo as [ | | | s m e]; eauto using add_not_nan.
  - inversion Hl as [ | ? ? Hv Hl']; subst.
    destruct v as [ | | x | ]; simpl in Hv; try contradiction.
    apply IH; auto using add_not_nan.
Qed.

Lemma py_sum_number alg l :
  Forall finite_rating l ->
  exists s, py_sum alg l = Return s /\ is_nan s = false.
Proof.
  intros Hl. destruct l as [ | v l]; simpl; [eauto | ].
  inversion Hl as [ | ? ? Hv Hl']; subst.
  destruct v as [ | | x | ]; simpl in Hv; try contradiction.
  assert (Hx : is_nan (add (of_Z 0) x) = false)
    by (apply add_not_nan; [reflexivity | assumption]).
  destruct alg; auto using sum_plain_number, sum_compensated_number.
Qed.

(** The mean of a non-empty list of finite ratings is a number. *)
Lemma mean_number alg l :
  l <> [] -> Z.of_nat (List.length l) <= maxsize -> Forall finite_rating l ->
  exists m, mean alg l = Return m /\ is_nan m = false.
Proof.
  intros Hne Hlen Hl. unfold mean.
  destruct (py_sum_number alg l Hl) as (s & -> & Hs).
  destruct l as [ | v l]; [congruence | ].
  destruct (of_Z_finite (Z.of_nat (List.length (v :: l)))) as (m & e & ->).
  { split; [simpl List.length; lia | exact Hlen]. }
  eauto using div_not_nan.
Qed.

(** ** Lists: [before] *)

Lemma before_In {A} (l : list A) a b : before l a b -> In a l /\ In b l.
Proof.
  induction l as [ | x l IH]; simpl; [tauto | ].
  intros [[-> Hb] | H]; [tauto | ]. apply IH in H. tauto.
Qed.

Lemma before_snoc {A} (l : list A) x a b :
  before (l ++ [x])%list a b <-> before l a b \/ (In a l /\ b = x).
Proof.
  induction l as [ | y l IH]; simpl.
  - tauto.
  - rewrite IH, in_app_iff. simpl. intuition (subst; auto).
Qed.

Lemma before_map {A B} (f : A -> B) (l : list A) a' b' :
  before (map f l) a' b' ->
  exists a b, before l a b /\ f a = a' /\ f b = b'.
Proof.
  induction l as [ | x l IH]; simpl; [tauto | ].
  intros [[Hx Hb] | H].
  - apply in_map_iff in Hb as (b & Hb & Hin).
    exists x, b. auto.
  - destruct (IH H) as (a & b & Hab & Ha & Hb). exists a, b. auto.
Qed.

Lemma map_before {A B} (f : A -> B) (l : list A) a b :
  before l a b -> before (map f l) (f a) (f b).
Proof.
  induction l as [ | x l IH]; simpl; [tauto | ].
  intros [[-> Hb] | H]; [left | right; auto].
  split; [reflexivity | apply in_map; assumption].
Qed.

Lemma lookup_before {A} (l : list A) : forall (i j : nat) a b,
  l !! i = Some a -> l !! j = Some b -> (i < j)%nat -> before l a b.
Proof.
  induction l as [ | x l IH]; intros i j a b Hi Hj Hij.
  - discriminate.
  - destruct j as [ | j]; [lia | ]. simpl in Hj.
    destruct i as [ | i]; simpl in Hi.
    + left. split; [congruence | ].
      apply list_elem_of_In. eapply list_elem_of_lookup_2; eassumption.
    + right. eapply IH; eauto. lia.
Qed.

Lemma before_NoDup_irrefl {A} (l : list A) a : 
  List.NoDup l -> ~ before l a a.
Proof.
  induction 1 as [ | x l Hx Hl IH]; simpl; [tauto | ].
  intros [[-> Ha] | H]; auto.
Qed.

(** ** [sorted(..., reverse=True)] *)

Lemma insert_row_perm x l : Permutation (insert_row x l) (x :: l).
Proof.
  induction l as [ | y l IH]; simpl; [reflexivity | ].
  destruct (ltb _ _); [ | reflexivity].
  rewrite IH. apply perm_swap.
Qed.

Lemma sorted_reverse_perm l : Permutation (sorted_reverse l) l.
Proof.
  induction l as [ | x l IH]; simpl; [reflexivity | ].
  rewrite insert_row_perm. constructor. exact IH.
Qed.

Lemma sorted_reverse_In l x : In x (sorted_reverse l) <-> In x l.
Proof.
  split; apply Permutation_in;
    [ | symmetry]; apply sorted_reverse_perm.
Qed.

Lemma insert_row_descending x l :
  number_row x -> Forall number_row l ->
  descending l -> descending (insert_row x l).
Proof.
  unfold descending. intros Hx Hl Hs.
  induction Hs as [ | y l Hs IH Hy]; simpl.
  - repeat constructor.
  - inversion Hl as [ | ? ? Ny Nl]; subst.
    destruct (ltb (average_rating x) (average_rating y)) eqn:Hlt.
    + constructor; [auto | ].
      eapply Permutation_Forall; [symmetry; apply insert_row_perm | ].
      constructor; [ | exact Hy].
      unfold geb. apply ltb_leb. exact Hlt.
    + assert (Hxy : geb (average_rating x) (average_rating y) = true)
        by (apply ltb_false_geb; assumption).
      constructor; [constructor; assumption | ].
      constructor; [exact Hxy | ].
      eapply List.Forall_impl; [ | exact Hy].
      intros z Hz. unfold geb in *. eapply leb_trans; eassumption.
Qed.

(** Without a NaN among the keys the result is in decreasing order. *)
Lemma sorted_reverse_descending l :
  Forall number_row l -> descending (sorted_reverse l).
Proof.
  induction 1 as [ | x l Hx Hl IH]; simpl.
  - constructor.
  - apply insert_row_descending; auto.
    eapply Permutation_Forall; [symmetry; apply sorted_reverse_perm | ].
    exact Hl.
Qed.

Lemma insert_row_before x s p q :
  before (insert_row x s) p q ->
  before s p q \/ (p = x /\ In q s)
  \/ (q = x /\ In p s /\ ltb (average_rating x) (average_rating p) = true).
Proof.
  induction s as [ | y s IH]; simpl.
  - intros [[_ []] | []].
  - destruct (ltb (average_rating x) (average_rating y)) eqn:Hlt; simpl.
    + intros [[-> Hq] | H].
      * apply (Permutation_in _ (insert_row_perm x s)) in Hq.
        destruct Hq as [<- | Hq]; auto 6.
      * destruct (IH H) as [H' | [[-> Hq] | (-> & Hp & Hlt')]]; auto 7.
    + intros [[-> Hq] | H]; auto.
Qed.

(** The sort is stable: rows of equal keys keep their order. *)
Lemma sorted_reverse_stable l p q :
  before (sorted_reverse l) p q ->
  eqb (average_rating p) (average_rating q) = true ->
  before l p q.
Proof.
  intros H Heq. induction l as [ | x l IH]; simpl in *; [exact H | ].
  apply insert_row_before in H as [H | [[-> Hq] | (-> & Hp & Hlt)]].
  - right. auto.
  - left. split; [reflexivity | ]. apply sorted_reverse_In. exact Hq.
  - apply eqb_not_ltb in Heq. congruence.
Qed.

(** ** Grouping by brand *)

Lemma key_eqb_str_r v s : key_eqb v (VStr s) = true <-> v = VStr s.
Proof.
  destruct v as [ | t | x | l]; simpl; split; try discriminate.
  - intros H. apply String.eqb_eq in H. congruence.
  - intros [= ->]. apply String.eqb_refl.
Qed.

Lemma key_eqb_str_sym v s : key_eqb (VStr s) v = key_eqb v (VStr s).
Proof. destruct v; simpl; try reflexivity. apply String.eqb_sym. Qed.

Lemma key_eqb_str_false v s : v <> VStr s -> key_eqb v (VStr s) = false.
Proof.
  intros H. destruct (key_eqb v (VStr s)) eqn:E; [ | reflexivity].
  apply key_eqb_str_r in E. contradiction.
Qed.

Lemma In_str_dec s ks : In (VStr s) ks \/ ~ In (VStr s) ks.
Proof.
  destruct (existsb (fun c => key_eqb c (VStr s)) ks) eqn:E.
  - left. apply existsb_exists in E as (c & Hc & Hcs).
    apply key_eqb_str_r in Hcs. congruence.
  - right. intros H. apply Bool.not_true_iff_false in E. apply E.
    apply existsb_exists. exists (VStr s). split; [exact H | ].
    simpl. apply String.eqb_refl.
Qed.

Lemma is_rated_fields r :
  is_rated r = true ->
  exists s x, r !! field "brand" = Some (VStr s)
              /\ r !! field "rating" = Some (VFloat x)
              /\ brand_of r = VStr s /\ rating_of r = VFloat x
              /\ is_finite x = true.
Proof.
  unfold is_rated, brand_of, rating_of, get.
  destruct (r !! field "brand") as [[ | s | | ] | ]; try discriminate.
  destruct (r !! field "rating") as [[ | | x | ] | ]; try discriminate.
  intros H. exists s, x. auto.
Qed.

Lemma group_rows_rated data : rated_rows data ->
  forall t k, group_rows data t k = (fold_left step data t, k).
Proof.
  induction 1 as [ | r data Hr Hdata IH]; intros t k; simpl; [reflexivity | ].
  destruct (is_rated_fields r Hr) as (s & x & Hb & Hx & Hb' & Hx' & _).
  unfold add_row, step. rewrite Hb, Hx, Hb', Hx'. simpl. apply IH.
Qed.

Lemma ratings_of_app c l l' :
  ratings_of c (l ++ l')%list = (ratings_of c l ++ ratings_of c l')%list.
Proof. unfold ratings_of. rewrite List.filter_app, map_app. reflexivity. Qed.

Lemma ratings_of_unseen s l :
  ~ In (VStr s) (map brand_of l) -> ratings_of (VStr s) l = [].
Proof.
  unfold ratings_of. induction l as [ | r l IH]; simpl; [reflexivity | ].
  intros H. rewrite key_eqb_str_false by tauto. apply IH. tauto.
Qed.

Lemma ratings_of_seen s l :
  In (VStr s) (map brand_of l) -> ratings_of (VStr s) l <> [].
Proof.
  unfold ratings_of. induction l as [ | r l IH]; simpl; [tauto | ].
  intros [H | H].
  - rewrite H. simpl. rewrite String.eqb_refl. discriminate.
  - destruct (key_eqb (brand_of r) (VStr s)); [discriminate | auto].
Qed.

Lemma first_seen_app_in s l l' :
  In (VStr s) (map brand_of l) ->
  first_seen (VStr s) (l ++ l')%list = first_seen (VStr s) l
  /\ (first_seen (VStr s) l < List.length l)%nat.
Proof.
  induction l as [ | r l IH]; simpl; [tauto | ].
  intros H. destruct (key_eqb (brand_of r) (VStr s)) eqn:E.
  - split; [reflexivity | lia].
  - destruct H as [H | H].
    + apply key_eqb_str_r in H. congruence.
    + destruct (IH H) as [-> ?]. split; [reflexivity | lia].
Qed.

Lemma first_seen_app_notin s l l' :
  ~ In (VStr s) (map brand_of l) ->
  first_seen (VStr s) (l ++ l')%list
  = (List.length l + first_seen (VStr s) l')%nat.
Proof.
  induction l as [ | r l IH]; simpl; [reflexivity | ].
  intros H. rewrite key_eqb_str_false by tauto. rewrite IH by tauto.
  reflexivity.
Qed.

Lemma append_rating_in (f : value -> list value) s x ks :
  List.NoDup ks -> In (VStr s) ks ->
  append_rating (VStr s) x (map (fun c => (c, f c)) ks)
  = map (fun c => (c, if key_eqb c (VStr s) then (f c ++ [x])%list else f c))
      ks.
Proof.
  induction 1 as [ | c ks Hc Hks IH]; simpl; [tauto | ].
  intros Hin. destruct (key_eqb c (VStr s)) eqn:E.
  - apply key_eqb_str_r in E. subst c. f_equal.
    apply map_ext_in. intros c' Hc'.
    rewrite key_eqb_str_false by congruence. reflexivity.
  - f_equal. apply IH. destruct Hin as [-> | Hin]; [ | exact Hin].
    simpl in E. rewrite String.eqb_refl in E. discriminate.
Qed.

Lemma append_rating_notin (f : value -> list value) s x ks :
  ~ In (VStr s) ks ->
  append_rating (VStr s) x (map (fun c => (c, f c)) ks)
  = (map (fun c => (c, f c)) ks ++ [(VStr s, [x])])%list.
Proof.
  induction ks as [ | c ks IH]; simpl; [reflexivity | ].
  intros H. rewrite key_eqb_str_false by tauto. f_equal. apply IH. tauto.
Qed.

Lemma grouped_nil : grouped [] [].
Proof. split; simpl; try tauto; constructor. Qed.

Lemma step_table seen ks r :
  grouped seen ks -> is_rated r = true ->
  exists ks', step (table_of seen ks) r = table_of (seen ++ [r]) ks'
              /\ grouped (seen ++ [r]) ks'.
Proof.
  intros [Hnd Hstr Hbr Hord] Hr.
  destruct (is_rated_fields r Hr) as (s & x & _ & _ & Hb & Hx & _).
  unfold step, table_of. rewrite Hb, Hx.
  assert (Hlast : ratings_of (VStr s) [r] = [VFloat x]).
  { unfold ratings_of; simpl. rewrite Hb; simpl.
    rewrite String.eqb_refl; simpl. rewrite Hx; reflexivity. }
  assert (Hother : forall c, c <> VStr s -> is_str c -> ratings_of c [r] = []).
  { intros c Hc [s' ->]. unfold ratings_of; simpl. rewrite Hb.
    rewrite key_eqb_str_sym, key_eqb_str_false by exact Hc. reflexivity. }
  assert (Hseen : forall c, In c ks ->
            exists s', c = VStr s' /\ In (VStr s') (map brand_of seen)).
  { intros c Hc. rewrite Forall_forall in Hstr.
    destruct (Hstr c ltac:(apply list_elem_of_In; exact Hc)) as [s' ->].
    exists s'. split; [reflexivity | apply Hbr; exact Hc]. }
  destruct (In_str_dec s ks) as [Hin | Hnin].
  - exists ks. split.
    + rewrite append_rating_in by assumption.
      apply map_ext_in. intros c Hc. f_equal.
      rewrite ratings_of_app.
      destruct (key_eqb c (VStr s)) eqn:E.
      * apply key_eqb_str_r in E. subst c. rewrite Hlast. reflexivity.
      * destruct (Hseen c Hc) as (s' & -> & _).
        rewrite Hother; [rewrite app_nil_r; reflexivity | | eexists; eauto].
        intros [= ->]. simpl in E. rewrite String.eqb_refl in E. discriminate.
    + split; try assumption.
      * intros c. rewrite map_app, in_app_iff, Hbr. simpl. rewrite Hb.
        split; [tauto | ]. intros [H | [<- | []]]; [exact H | ].
        apply Hbr. exact Hin.
      * intros a b Hab. pose proof (Hord a b Hab) as Hlt.
        destruct (before_In _ _ _ Hab) as [Ha Hb0].
        destruct (Hseen a Ha) as (sa & -> & Hsa).
        destruct (Hseen b Hb0) as (sb & -> & Hsb).
        destruct (first_seen_app_in sa seen [r] Hsa) as [-> _].
        destruct (first_seen_app_in sb seen [r] Hsb) as [-> _].
        exact Hlt.
  - exists (ks ++ [VStr s])%list. split.
    + rewrite append_rating_notin by assumption.
      rewrite map_app. simpl. f_equal.
      * apply map_ext_in. intros c Hc. f_equal.
        rewrite ratings_of_app.
        destruct (Hseen c Hc) as (s' & -> & _).
        rewrite Hother; [rewrite app_nil_r; reflexivity | | eexists; eauto].
        intros E. apply Hnin. rewrite <- E. exact Hc.
      * rewrite ratings_of_app, Hlast.
        rewrite ratings_of_unseen; [reflexivity | ].
        intros H. apply Hnin, Hbr, H.
    + split.
      * apply List.NoDup_app; [exact Hnd | | ].
        -- repeat constructor. simpl. tauto.
        -- intros c Hc [<- | []]. apply Hnin. exact Hc.
      * apply List.Forall_app. split; [exact Hstr | ].
        repeat constructor. eexists; eauto.
      * intros c. rewrite map_app, !in_app_iff, Hbr. simpl. rewrite Hb.
        tauto.
      * intros a b Hab. apply before_snoc in Hab as [Hab | [Ha ->]].
        -- pose proof (Hord a b Hab) as Hlt.
           destruct (before_In _ _ _ Hab) as [Ha Hb0].
           destruct (Hseen a Ha) as (sa & -> & Hsa).
           destruct (Hseen b Hb0) as (sb & -> & Hsb).
           destruct (first_seen_app_in sa seen [r] Hsa) as [-> _].
           destruct (first_seen_app_in sb seen [r] Hsb) as [-> _].
           exact Hlt.
        -- destruct (Hseen a Ha) as (sa & -> & Hsa).
           destruct (first_seen_app_in sa seen [r] Hsa) as [-> Hlt].
           rewrite first_seen_app_notin
             by (intros H; apply Hnin, Hbr, H).
           lia.
Qed.

Lemma fold_step_table data : rated_rows data ->
  forall seen ks, grouped seen ks ->
  exists ks', fold_left step data (table_of seen ks)
              = table_of (seen ++ data) ks'
              /\ grouped (seen ++ data) ks'.
Proof.
  induction 1 as [ | r data Hr Hdata IH]; intros seen ks Hg; simpl.
  - exists ks. rewrite app_nil_r. auto.
  - destruct (step_table seen ks r Hg Hr) as (ks1 & -> & Hg1).
    destruct (IH _ _ Hg1) as (ks2 & -> & Hg2).
    exists ks2. rewrite <- app_assoc in *. auto.
Qed.

(** The table of lines 76-86 for rated rows. *)
Lemma group_rows_table data : rated_rows data ->
  exists ks, group_rows data [] 0 = (table_of data ks, 0) /\ grouped data ks.
Proof.
  intros Hdata. rewrite group_rows_rated by exact Hdata.
  destruct (fold_step_table data Hdata [] [] grouped_nil) as (ks & H & Hg).
  exists ks. simpl in *. rewrite <- H. auto.
Qed.

(** ** The report of rated rows *)

Lemma ratings_of_finite c data :
  rated_rows data -> Forall finite_rating (ratings_of c data).
Proof.
  unfold ratings_of. induction 1 as [ | r data Hr Hdata IH]; simpl.
  - constructor.
  - destruct (key_eqb (brand_of r) c); [ | exact IH].
    simpl. constructor; [ | exact IH].
    destruct (is_rated_fields r Hr) as (s & x & _ & _ & _ & -> & Hx).
    simpl. exact Hx.
Qed.

Lemma ratings_of_length c data :
  (List.length (ratings_of c data) <= List.length data)%nat.
Proof.
  unfold ratings_of. rewrite length_map. apply List.filter_length_le.
Qed.

Lemma build_report_table alg data ks :
  rated_rows data -> Z.of_nat (List.length data) <= maxsize ->
  Forall is_str ks -> (forall c, In c ks -> In c (map brand_of data)) ->
  exists rep, build_report alg (table_of data ks) = Return rep
              /\ map brand rep = ks
              /\ Forall (averages alg data) rep
              /\ Forall number_row rep.
Proof.
  intros Hdata Hlen Hstr Hin.
  induction ks as [ | c ks IH]; simpl.
  - exists []. repeat split; constructor.
  - inversion Hstr as [ | ? ? [s ->] Hstr']; subst.
    destruct (mean_number alg (ratings_of (VStr s) data)) as (m & Hm & Nm).
    { apply ratings_of_seen. apply Hin. left. reflexivity. }
    { pose proof (ratings_of_length (VStr s) data). lia. }
    { apply ratings_of_finite. exact Hdata. }
    destruct IH as (rep & -> & Hks & Hav & Hnum);
      [exact Hstr' | intros c Hc; apply Hin; right; exact Hc | ].
    rewrite Hm.
    exists (ReportRow (VStr s) (round2 m) :: rep). repeat split.
    + simpl. rewrite Hks. reflexivity.
    + constructor; [ | exact Hav]. exists m. auto.
    + constructor; [ | exact Hnum]. apply round2_not_nan. exact Nm.
Qed.

(** [calculate_average_rating] on rated rows: the report is the sorted list
    of one row per key of the table. *)
Lemma calculate_rated alg data :
  rated_rows data -> Z.of_nat (List.length data) <= maxsize ->
  exists ks rep,
    grouped data ks /\ map brand rep = ks
    /\ Forall (averages alg data) rep /\ Forall number_row rep
    /\ result (calculate_average_rating alg data)
       = Return (sorted_reverse rep).
Proof.
  intros Hdata Hlen.
  destruct (group_rows_table data Hdata) as (ks & Hgroup & Hg).
  destruct (build_report_table alg data ks Hdata Hlen (grouped_str _ _ Hg))
    as (rep & Hrep & Hks & Hav & Hnum).
  { intros c. apply (grouped_brands _ _ Hg). }
  exists ks, rep.
  split; [exact Hg | ]. split; [exact Hks | ].
  split; [exact Hav | ]. split; [exact Hnum | ].
  unfold calculate_average_rating. rewrite Hgroup. simpl.
  destruct (table_of data ks) as [ | entry t] eqn:Ht.
  - simpl in Hrep. injection Hrep as <-. reflexivity.
  - rewrite Hrep. reflexivity.
Qed.

(** ** The Aggregator *)

(** C1. On rows with a string brand and a finite float rating (at most
    [sys.maxsize] of them; every sequence of Records is one) the Aggregator
    returns a report that has exactly one row per distinct brand, in which
    the average of a brand is the mean of its ratings ([sum / len]) rounded
    to two decimal places, and that is sorted by decreasing average; the
    rows apple 4.7, apple 4.9, samsung 4.5 yield apple 4.8, samsung 4.5. *)
Theorem calculate_average_rating_correct alg data :
  Forall (fun r => is_rated r = true) data ->
  Z.of_nat (List.length data) <= maxsize ->
  (exists report,
     result (calculate_average_rating alg data) = Return report
     /\ List.NoDup (map brand report)
     /\ (forall b, In b (map brand report) <-> In b (map brand_of data))
     /\ (forall x, In x report ->
           exists m, mean alg (ratings_of (brand x) data) = Return m
                     /\ average_rating x = round2 m)
     /\ descending report)
  /\ calculate_average_rating alg
       [record "apple" "4.7"; record "apple" "4.9"; record "samsung" "4.5"]
     = ([], Return [ReportRow (VStr "apple") (lit "4.8");
                    ReportRow (VStr "samsung") (lit "4.5")]).
Proof.
  intros Hdata Hlen. split.
  - destruct (calculate_rated alg data Hdata Hlen)
      as (ks & rep & Hg & Hks & Hav & Hnum & Hres).
    exists (sorted_reverse rep).
    pose proof (sorted_reverse_perm rep) as Hperm.
    split; [exact Hres | ]. split; [ | split; [ | split]].
    + eapply Permutation_NoDup.
      * apply Permutation_map. symmetry. exact Hperm.
      * rewrite Hks. apply (grouped_nodup _ _ Hg).
    + intros b. rewrite <- (grouped_brands _ _ Hg b), <- Hks.
      split; apply Permutation_in; apply Permutation_map;
        [exact Hperm | symmetry; exact Hperm].
    + intros x Hx. apply (proj1 (sorted_reverse_In _ _)) in Hx.
      rewrite List.Forall_forall in Hav. exact (Hav x Hx).
    + apply sorted_reverse_descending. exact Hnum.
  - destruct alg; vm_compute; reflexivity.
Qed.

Lemma calculate_average_rating_correct_witness :
  let data := [record "apple" "4.7"; record "apple" "4.9";
               record "samsung" "4.5"] in
  exists report,
    result (calculate_average_rating Plain data) = Return report
    /\ List.NoDup (map brand report)
    /\ (forall b, In b (map brand report) <-> In b (map brand_of data))
    /\ (forall x, In x report ->
          exists m, mean Plain (ratings_of (brand x) data) = Return m
                    /\ average_rating x = round2 m)
    /\ descending report.
Proof.
  intros data.
  refine (proj1 (calculate_average_rating_correct Plain data _ _)).
  - repeat constructor.
  - vm_compute. discriminate.
Defined.

(** C5. In the report of rows with a string brand and a finite float
    rating, two rows of equal averages stand in the order in which their
    brands first appear in the input. *)
Theorem calculate_average_rating_ties alg data :
  Forall (fun r => is_rated r = true) data ->
  Z.of_nat (List.length data) <= maxsize ->
  exists report,
    result (calculate_average_rating alg data) = Return report
    /\ forall (i j : nat) x y,
         report !! i = Some x -> report !! j = Some y ->
         eqb (average_rating x) (average_rating y) = true ->
         ((i < j)%nat
          <-> (first_seen (brand x) data < first_seen (brand y) data)%nat).
Proof.
  intros Hdata Hlen.
  destruct (calculate_rated alg data Hdata Hlen)
    as (ks & rep & Hg & Hks & _ & _ & Hres).
  exists (sorted_reverse rep). split; [exact Hres | ].
  assert (Hfwd : forall (i j : nat) x y,
            sorted_reverse rep !! i = Some x ->
            sorted_reverse rep !! j = Some y ->
            eqb (average_rating x) (average_rating y) = true ->
            (i < j)%nat ->
            (first_seen (brand x) data < first_seen (brand y) data)%nat).
  { intros i j x y Hi Hj Heq Hij.
    apply (grouped_order _ _ Hg). rewrite <- Hks. apply map_before.
    apply sorted_reverse_stable; [ | exact Heq].
    eapply lookup_before; eassumption. }
  intros i j x y Hi Hj Heq. split; [eauto | ].
  intros Hlt.
  destruct (Nat.lt_trichotomy i j) as [Hij | [-> | Hji]]; [exact Hij | | ].
  - rewrite Hi in Hj. injection Hj as ->. lia.
  - pose proof (Hfwd j i y x Hj Hi (eqb_sym _ _ Heq) Hji). lia.
Qed.

Lemma calculate_average_rating_ties_witness :
  let data := [record "lg" "4.0"; record "sony" "4.5"; record "lg" "5.0";
               record "acer" "3.0"] in
  exists report,
    result (calculate_average_rating Compensated data) = Return report
    /\ forall (i j : nat) x y,
         report !! i = Some x -> report !! j = Some y ->
         eqb (average_rating x) (average_rating y) = true ->
         ((i < j)%nat
          <-> (first_seen (brand x) data < first_seen (brand y) data)%nat).
Proof.
  intros data.
  refine (calculate_average_rating_ties Compensated data _ _).
  - repeat constructor.
  - vm_compute. discriminate.
Defined.

Lemma record_brand b x : record b x !! field "brand" = Some (VStr b).
Proof. unfold record, dict. simpl. apply lookup_insert_eq. Qed.

Lemma record_rating b x :
  record b x !! field "rating" = Some (VFloat (lit x)).
Proof.
  unfold record, dict. simpl. rewrite lookup_insert_ne by discriminate.
  apply lookup_insert_eq.
Qed.

Lemma add_row_record b x t :
  add_row (record b x) t
  = Some (append_rating (VStr b) (VFloat (lit x)) t).
Proof. unfold add_row. rewrite record_brand, record_rating. reflexivity. Qed.

(** C6. For one brand with the ratings 4.0, 4.0 and 5.0 the reported
    average is the float 4.33. *)
Theorem calculate_average_rating_rounding alg (b : string) :
  calculate_average_rating alg [record b "4.0"; record b "4.0"; record b "5.0"]
  = ([], Return [ReportRow (VStr b) (lit "4.33")]).
Proof.
  assert (Hmean : mean alg [VFloat (lit "4.0"); VFloat (lit "4.0");
                            VFloat (lit "5.0")]
                  = Return (div (of_Z 13) (of_Z 3)))
    by (destruct alg; vm_compute; reflexivity).
  assert (Hround : round2 (div (of_Z 13) (of_Z 3)) = lit "4.33")
    by (vm_compute; reflexivity).
  assert (Htable : group_rows [record b "4.0"; record b "4.0"; record b "5.0"]
                      [] 0
                    = ([(VStr b, [VFloat (lit "4.0"); VFloat (lit "4.0");
                                  VFloat (lit "5.0")])], 0)).
  { cbn [group_rows]. rewrite !add_row_record.
    repeat (cbn [append_rating key_eqb app]; rewrite ?String.eqb_refl).
    reflexivity. }
  unfold calculate_average_rating. rewrite Htable.
  change (0 <? 0) with false. cbn [bind ret print lift build_report].
  rewrite Hmean. cbn [sorted_reverse fold_right insert_row app].
  rewrite Hround. reflexivity.
Qed.

(** ** The monad: how a computation can return *)

Lemma bind_Return {A B} (m : M A) (k : A -> M B) log b :
  bind m k = (log, Return b) ->
  exists l1 a l2,
    m = (l1, Return a) /\ k a = (l2, Return b) /\ log = (l1 ++ l2)%list.
Proof.
  destruct m as [l1 [a | e]]; simpl; [ | discriminate].
  destruct (k a) as [l2 r] eqn:Hk. intros [= <- ->].
  exists l1, a, l2. auto.
Qed.

Lemma try_except_Return {A} (m : M A) handler log a :
  try_except m handler = (log, Return a) ->
  m = (log, Return a)
  \/ exists l1 e h l2,
       m = (l1, Raise e) /\ handler e = Some h /\ h = (l2, Return a)
       /\ log = (l1 ++ l2)%list.
Proof.
  destruct m as [l1 [a' | e]]; simpl; [auto | ].
  destruct (handler e) as [[l2 r] | ] eqn:Hh; [ | discriminate].
  intros [= <- ->]. right. exists l1, e, (l2, Return a), l2. auto.
Qed.

(** ** The Row Ingestor *)

Lemma process_row_accepted file row_num r log record :
  process_row file row_num r = (log, Return (Some record)) ->
  accepted r record.
Proof.
  unfold process_row, get, getitem, accepted.
  destruct (r !! field "brand") as [[ | b | bx | bl] | ] eqn:Hb;
    cbn [truthy negb orb]; try (intros [= ]; fail).
  2: { destruct (negb (eqb bx zero)); cbn [negb orb].
       - destruct (negb (truthy _)); cbn [try_except bind raise py_strip ret];
           intros [= ].
       - intros [= ]. }
  2: { destruct bl; cbn [negb orb]; [intros [= ] | ].
       destruct (negb (truthy _)); cbn [try_except bind raise py_strip ret];
         intros [= ]. }
  destruct (PyStr.nonempty b) eqn:Nb; cbn [negb orb]; [ | intros [= ]].
  destruct (r !! field "rating") as [[ | s | y | l] | ] eqn:Hs;
    cbn [truthy negb orb]; try (intros [= ]; fail).
  2: { destruct (negb (eqb y zero)); cbn [negb orb]; intros [= ]. }
  2: { destruct l; cbn [negb orb]; intros [= ]. }
  destruct (PyStr.nonempty s) eqn:Ns; cbn [negb orb];
    [ | intros [= ]].
  cbn [py_strip bind ret app]. unfold py_float.
  destruct (PyStr.nonempty (PyStr.strip b)) eqn:Nb'; cbn [negb orb];
    [ | intros [= ]].
  destruct (PyStr.nonempty (PyStr.strip s)) eqn:Ns'; cbn [negb orb];
    [ | intros [= ]].
  destruct (FloatParse.parse (PyStr.strip s)) as [x | ] eqn:Hx;
    [ | intros [= ]].
  cbn [bind ret app].
  destruct (ltb x (of_Z 0)) eqn:Hlo; cbn [orb]; [intros [= ] | ].
  destruct (gtb x (of_Z 5)) eqn:Hhi; cbn [orb]; [intros [= ] | ].
  cbn [try_except ret app]. intros [= <- <-].
  exists b, s, x. auto 10.
Qed.

Lemma read_rows_Return file rows : forall row_num data k log data' k',
  read_rows file row_num rows data k = (log, Return (data', k')) ->
  exists new, data' = (data ++ new)%list /\ Forall (from_rows rows) new
              /\ k' = k + Z.of_nat (List.length new).
Proof.
  induction rows as [ | r rows IH]; intros row_num data k log data' k' H.
  - injection H as <- <- <-. exists []. rewrite app_nil_r.
    split; [reflexivity | ]. split; [constructor | simpl; lia].
  - cbn [read_rows] in H.
    apply bind_Return in H as (l1 & [record | ] & l2 & Hrow & Hrest & ->).
    + apply process_row_accepted in Hrow.
      apply IH in Hrest as (new & -> & Hnew & ->).
      exists (record :: new). rewrite <- app_assoc. split; [reflexivity | ].
      split.
      * constructor; [exists r; simpl; auto | ].
        eapply List.Forall_impl; [ | exact Hnew].
        intros x (r' & Hr' & Hx). exists r'. simpl. auto.
      * simpl List.length. lia.
    + apply IH in Hrest as (new & -> & Hnew & ->).
      exists new. split; [reflexivity | ]. split; [ | reflexivity].
      eapply List.Forall_impl; [ | exact Hnew].
      intros x (r' & Hr' & Hx). exists r'. simpl. auto.
Qed.

Lemma read_file_Return fs file data log data' :
  read_file fs file data = (log, Return data') ->
  exists new, data' = (data ++ new)%list
              /\ Forall (from_rows (rows_of fs file)) new.
Proof.
  unfold read_file, rows_of. intros H.
  apply try_except_Return in H as [H | (l1 & e & h & l2 & _ & Hh & -> & _)].
  - destruct (contents (fs file)) as [e | fieldnames rows failure];
      [discriminate | ].
    destruct (missing_columns fieldnames).
    + injection H as <- <-. exists []. rewrite app_nil_r.
      split; [reflexivity | constructor].
    + apply bind_Return in H as (l1 & [d k] & l2 & Hrows & Hrest & ->).
      destruct failure as [e | ]; [discriminate | ].
      apply bind_Return in Hrest as (l3 & [] & l4 & _ & [= <- <-] & _).
      apply read_rows_Return in Hrows as (new & -> & Hnew & _).
      exists new. auto.
  - destruct e; simpl in Hh; try discriminate; injection Hh as [= ].
Qed.

Lemma read_files_Return fs files : forall data log data',
  read_files fs files data = (log, Return data') ->
  exists new,
    data' = (data ++ new)%list
    /\ Forall (fun record =>
                 exists file, In file files
                              /\ from_rows (rows_of fs file) record) new.
Proof.
  induction files as [ | file files IH]; intros data log data' H.
  - injection H as <- <-. exists []. rewrite app_nil_r.
    split; [reflexivity | constructor].
  - cbn [read_files] in H.
    apply bind_Return in H as (l1 & d & l2 & Hfile & Hrest & ->).
    apply read_file_Return in Hfile as (new1 & -> & Hnew1).
    apply IH in Hrest as (new2 & -> & Hnew2).
    exists (new1 ++ new2)%list. rewrite app_assoc. split; [reflexivity | ].
    apply List.Forall_app. split.
    + eapply List.Forall_impl; [ | exact Hnew1].
      intros x Hx. exists file. simpl. auto.
    + eapply List.Forall_impl; [ | exact Hnew2].
      intros x (f & Hf & Hx). exists f. simpl. auto.
Qed.

Lemma read_csv_files_Return fs files log data :
  read_csv_files fs files = (log, Return data) ->
  read_files fs files [] = (log, Return data) /\ data <> [].
Proof.
  unfold read_csv_files. intros H.
  apply bind_Return in H as (l1 & d & l2 & Hfiles & Hrest & ->).
  destruct d as [ | r d]; [discriminate | ].
  injection Hrest as <- <-. rewrite app_nil_r. split; [exact Hfiles | ].
  discriminate.
Qed.

(** C9. Every Record that [read_csv_files] returns is a row of one of the
    files in which the brand has been replaced by its trimmed text and the
    rating by the float its trimmed text denotes; every other field of the
    row is unchanged. *)
Theorem read_csv_files_records fs files log data :
  read_csv_files fs files = (log, Return data) ->
  Forall (fun record =>
            exists file r b s x,
              In file files /\ In r (rows_of fs file)
              /\ r !! field "brand" = Some (VStr b)
              /\ r !! field "rating" = Some (VStr s)
              /\ FloatParse.parse (PyStr.strip s) = Some x
              /\ record !! field "brand" = Some (VStr (PyStr.strip b))
              /\ record !! field "rating" = Some (VFloat x)
              /\ forall k, k <> field "brand" -> k <> field "rating" ->
                           record !! k = r !! k) data.
Proof.
  intros H. apply read_csv_files_Return in H as [H _].
  apply read_files_Return in H as (new & -> & Hnew). simpl.
  eapply List.Forall_impl; [ | exact Hnew].
  intros record (file & Hfile & r & Hr & b & s & x
                 & Hb & Hs & _ & Hx & _ & _ & ->).
  exists file, r, b, s, x. repeat split; try assumption.
  - rewrite lookup_insert_ne by discriminate. apply lookup_insert_eq.
  - apply lookup_insert_eq.
  - intros k Kb Kr. rewrite !lookup_insert_ne by congruence. reflexivity.
Qed.

(** C10. The rating text "nan" parses as NaN, for which the range check
    [rating < 0 or rating > 5] is false: the row is accepted without a
    warning, its Record has the rating NaN, and the average the Aggregator
    reports for its brand is NaN. *)
Theorem nan_rating_reaches_report alg :
  let r := csv_row "phone" "apple" "1000" "nan" in
  let record := <[field "rating" := VFloat nan]> r in
  FloatParse.parse "nan" = Some nan
  /\ ltb nan (of_Z 0) || gtb nan (of_Z 5) = false
  /\ process_row "phones.csv" 2 r = ([], Return (Some record))
  /\ read_csv_files (one_file [r]) ["phones.csv"] = ([], Return [record])
  /\ calculate_average_rating alg [record]
     = ([], Return [ReportRow (VStr "apple") nan])
  /\ main alg (one_file [r]) phones
     = ([Write Stdout (Table [ReportRow (VStr "apple") nan])], Return tt).
Proof.
  intros r record.
  split; [vm_compute; reflexivity | ].
  split; [vm_compute; reflexivity | ].
  split; [vm_compute; reflexivity | ].
  split; [vm_compute; reflexivity | ].
  split; destruct alg; vm_compute; reflexivity.
Qed.

(** What the range check does ensure: the rating of an accepted row is
    within [0, 5] or is NaN, and its brand is not empty. *)
Lemma accepted_rating r record :
  accepted r record ->
  exists b x,
    record !! field "brand" = Some (VStr b) /\ PyStr.nonempty b = true
    /\ record !! field "rating" = Some (VFloat x)
    /\ (in_range x = true \/ is_nan x = true).
Proof.
  intros (b & s & x & _ & _ & Hb & _ & Hlo & Hhi & ->).
  exists (PyStr.strip b), x.
  split; [rewrite lookup_insert_ne by discriminate; apply lookup_insert_eq | ].
  split; [exact Hb | ]. split; [apply lookup_insert_eq | ].
  destruct (is_nan x) eqn:Nx; [right; reflexivity | left].
  unfold in_range. apply andb_true_intro. split.
  - apply ltb_false_geb; [exact Nx | reflexivity | exact Hlo].
  - apply (ltb_false_geb (of_Z 5) x); [reflexivity | exact Nx | exact Hhi].
Qed.

(** C2, at the input on which it fails: the row phone,apple,1000,nan is
    accepted although its rating, NaN, is not within [0, 5]. *)
Theorem nan_rating_breaks_range :
  exists record,
    read_csv_files (one_file [csv_row "phone" "apple" "1000" "nan"])
      ["phones.csv"] = ([], Return [record])
    /\ record !! field "rating" = Some (VFloat nan)
    /\ in_range nan = false.
Proof.
  exists (<[field "rating" := VFloat nan]>
            (csv_row "phone" "apple" "1000" "nan")).
  split; [vm_compute; reflexivity | ].
  split; [vm_compute; reflexivity | ].
  vm_compute; reflexivity.
Qed.

(** C3, at the input on which it fails (the one of
    [test_calculate_rating_all_invalid]): the record whose brand is the
    empty string is grouped and reported, and only the record without a
    [brand] key is skipped. *)
Theorem empty_brand_is_reported alg :
  calculate_average_rating alg
    [record "" "4.5";
     dict [("not_brand", VStr "sony"); ("rating", VFloat (lit "4.0"))]]
  = ([Write Stdout (WarnSkipped 1)],
     Return [ReportRow (VStr "") (lit "4.5")]).
Proof. destruct alg; vm_compute; reflexivity. Qed.

(** A record whose rating is no number is not skipped either: [sum] raises
    [TypeError], which leaves the Aggregator. *)
Lemma text_rating_raises alg :
  calculate_average_rating alg [dict [("brand", VStr "apple");
                                      ("rating", VStr "4.5")]]
  = ([], Raise TypeError).
Proof. destruct alg; vm_compute; reflexivity. Qed.

(** ** What the script writes *)

Section Events.
Variable P : event -> Prop.

Lemma all_events_ret {A} (a : A) : all_events P (ret a).
Proof. constructor. Qed.

Lemma all_events_raise {A} e : all_events P (@raise A e).
Proof. constructor. Qed.

Lemma all_events_lift {A} (o : outcome A) : all_events P (lift o).
Proof. constructor. Qed.

Lemma all_events_print msg :
  P (Write Stdout msg) -> all_events P (print msg).
Proof. intros H. repeat constructor. exact H. Qed.

Lemma all_events_bind {A B} (m : M A) (k : A -> M B) :
  all_events P m -> (forall a, all_events P (k a)) ->
  all_events P (bind m k).
Proof.
  unfold all_events, trace. intros Hm Hk.
  destruct m as [l1 [a | e]]; simpl in *; [ | exact Hm].
  specialize (Hk a). destruct (k a) as [l2 r]; simpl in *.
  apply List.Forall_app. auto.
Qed.

Lemma all_events_try {A} (m : M A) handler :
  all_events P m ->
  (forall e h, handler e = Some h -> all_events P h) ->
  all_events P (try_except m handler).
Proof.
  unfold all_events, trace. intros Hm Hh.
  destruct m as [l1 [a | e]]; simpl in *; [exact Hm | ].
  destruct (handler e) as [[l2 r] | ] eqn:He; simpl; [ | exact Hm].
  apply List.Forall_app. split; [exact Hm | ]. exact (Hh e _ He).
Qed.
End Events.

Ltac events_step :=
  match goal with
  | |- all_events _ (bind _ _) => apply all_events_bind; [ | intros ?]
  | |- all_events _ (try_except _ _) =>
      apply all_events_try; [ | intros ? ? ?]
  | |- all_events _ (ret _) => apply all_events_ret
  | |- all_events _ (raise _) => apply all_events_raise
  | |- all_events _ (sys_exit _) => apply all_events_raise
  | |- all_events _ (lift _) => apply all_events_lift
  | |- all_events _ (print _) =>
      apply all_events_print; first [reflexivity | split; reflexivity]
  | |- all_events _ (_, _) =>
      unfold all_events, trace; cbn [fst];
      repeat (constructor; try first [reflexivity | split; reflexivity])
  | |- all_events _ (if ?b then _ else _) => destruct b
  | |- all_events _ (match ?x with _ => _ end) => destruct x
  | H : match ?e with _ => _ end = Some _ |- _ =>
      destruct e; try discriminate H
  | H : Some _ = Some _ |- _ => injection H as <-
  end.

Ltac events := repeat events_step.

Lemma process_row_diagnostics file row_num r :
  all_events diagnostic (process_row file row_num r).
Proof. unfold process_row, py_strip, getitem, py_float. events. Qed.

Lemma read_rows_diagnostics file rows : forall row_num data k,
  all_events diagnostic (read_rows file row_num rows data k).
Proof.
  induction rows as [ | r rows IH]; intros row_num data k; cbn [read_rows].
  - events.
  - apply all_events_bind; [apply process_row_diagnostics | ].
    intros [record | ]; apply IH.
Qed.

Lemma read_file_diagnostics fs file data :
  all_events diagnostic (read_file fs file data).
Proof.
  unfold read_file. apply all_events_try.
  - destruct (contents (fs file)) as [e | fieldnames rows failure];
      [events | ].
    destruct (missing_columns fieldnames); [events | ].
    apply all_events_bind; [apply read_rows_diagnostics | ].
    intros st. events.
  - intros e h He. events.
Qed.

Lemma read_files_diagnostics fs files : forall data,
  all_events diagnostic (read_files fs files data).
Proof.
  induction files as [ | file files IH]; intros data; cbn [read_files].
  - events.
  - apply all_events_bind; [apply read_file_diagnostics | exact IH].
Qed.

Lemma read_csv_files_diagnostics fs files :
  all_events diagnostic (read_csv_files fs files).
Proof.
  unfold read_csv_files.
  apply all_events_bind; [apply read_files_diagnostics | ].
  intros data. events.
Qed.

Lemma validate_diagnostics fs candidates : forall valid_files,
  all_events diagnostic (validate fs candidates valid_files).
Proof.
  induction candidates as [ | file rest IH]; intros valid_files;
    cbn [validate].
  - events.
  - destruct (negb (isfile (fs file))); [events | ].
    destruct (negb (PyStr.endswith _ _)); [events | ].
    destruct (negb (readable (fs file))); [events | ].
    apply IH.
Qed.

Lemma calculate_average_rating_diagnostics alg data :
  all_events diagnostic (calculate_average_rating alg data).
Proof.
  unfold calculate_average_rating.
  destruct (group_rows data [] 0) as [t k]. events.
Qed.

Lemma lookup_handler_events P report_handlers name :
  all_events P (lookup_handler report_handlers name).
Proof.
  induction report_handlers as [ | [k h] rest IH]; cbn [lookup_handler].
  - events.
  - destruct (String.eqb k name); [events | exact IH].
Qed.

Lemma diagnostic_on_stdout {A} (m : M A) :
  all_events diagnostic m -> all_events on_stdout m.
Proof.
  unfold all_events. apply List.Forall_impl. intros e [H _]. exact H.
Qed.

(** ** The process *)

Lemma main_with_diagnostics_then_table report_handlers fs parsed :
  (forall name h data, In (name, h) report_handlers ->
                       all_events on_stdout (h data)) ->
  all_events on_stdout (main_with report_handlers fs parsed).
Proof.
  intros Hh. unfold main_with. apply all_events_try.
  - apply all_events_bind; [apply all_events_lift | intros args].
    apply all_events_bind;
      [apply diagnostic_on_stdout, validate_diagnostics | ].
    intros [ | file valid_files]; [events | ].
    apply all_events_bind;
      [apply diagnostic_on_stdout, read_csv_files_diagnostics | ].
    intros data.
    assert (Hlookup : forall name log h,
              lookup_handler report_handlers name = (log, Return h) ->
              forall d, all_events on_stdout (h d)).
    { clear -Hh. induction report_handlers as [ | [k h'] rest IH];
        intros name log h; cbn [lookup_handler]; [discriminate | ].
      destruct (String.eqb k name).
      - intros [= <- <-] d. apply (Hh k h' d). left. reflexivity.
      - intros H. eapply IH; [ | exact H].
        intros n h0 d Hin. apply (Hh n h0 d). right. exact Hin. }
    pose proof (lookup_handler_events on_stdout report_handlers
                  (report args)) as Hl.
    destruct (lookup_handler report_handlers (report args))
      as [l [h | e]] eqn:El.
    + unfold all_events, trace in *. cbn [bind fst] in *.
      pose proof (Hlookup _ _ _ El data) as Hd.
      unfold all_events, trace in Hd.
      destruct (h data) as [l2 [[ | x report_data] | e]]; cbn [fst] in *;
        repeat (apply List.Forall_app; split); try assumption;
        repeat constructor.
    + exact Hl.
  - intros e h He. events.
Qed.

(** C4, as the code has it: whatever the run, every message the script
    writes (warnings, error messages and the table alike) goes to standard
    output, and nothing goes to the error stream. *)
Theorem main_writes_to_stdout alg fs parsed :
  Forall (fun e => target e = Stdout) (trace (main alg fs parsed)).
Proof.
  apply (main_with_diagnostics_then_table
           [("average-rating", calculate_average_rating alg)] fs parsed).
  intros name h data [[= <- <-] | []].
  apply diagnostic_on_stdout, calculate_average_rating_diagnostics.
Qed.

(** C4 as stated fails: for a file whose only row has the rating 6.0 the
    warnings and the error message are on standard output. *)
Lemma diagnostics_not_on_stderr :
  ~ diagnostics_on_stderr
      (trace (main Plain (one_file [csv_row "phone" "apple" "1000" "6.0"])
                phones)).
Proof.
  intros H.
  assert (Hin : In (Write Stdout ErrNoData)
                  (trace (main Plain
                            (one_file [csv_row "phone" "apple" "1000" "6.0"])
                            phones)))
    by (vm_compute; tauto).
  specialize (H _ Hin eq_refl). discriminate H.
Qed.

(** C7. When the validated files yield no Record at all, [read_csv_files]
    prints its error message and exits with status 1; the process ends with
    that status and has printed no table. *)
Theorem no_records_exit_1 report_handlers fs args vlog valid_files log :
  validate fs (files args) [] = (vlog, Return valid_files) ->
  valid_files <> [] ->
  read_files fs valid_files [] = (log, Return []) ->
  let run := main_with report_handlers fs (Return args) in
  read_csv_files fs valid_files
  = ((log ++ [Write Stdout ErrNoData])%list, Raise (SystemExit 1))
  /\ run = ((vlog ++ log ++ [Write Stdout ErrNoData])%list,
            Raise (SystemExit 1))
  /\ exit_status run = 1
  /\ Forall (fun e => is_table e = false) (trace run).
Proof.
  intros Hv Hne Hr run.
  assert (Hread : read_csv_files fs valid_files
                  = ((log ++ [Write Stdout ErrNoData])%list,
                     Raise (SystemExit 1))).
  { unfold read_csv_files. rewrite Hr. reflexivity. }
  assert (Hrun : run = ((vlog ++ log ++ [Write Stdout ErrNoData])%list,
                        Raise (SystemExit 1))).
  { subst run. unfold main_with. cbn [lift bind]. rewrite Hv.
    destruct valid_files as [ | file rest]; [congruence | ].
    cbn [bind]. rewrite Hread. reflexivity. }
  split; [exact Hread | ]. split; [exact Hrun | ].
  rewrite Hrun. split; [reflexivity | ].
  cbn [trace fst].
  pose proof (validate_diagnostics fs (files args) []) as Dv.
  pose proof (read_files_diagnostics fs valid_files []) as Dr.
  unfold all_events, trace in Dv, Dr. rewrite Hv in Dv. rewrite Hr in Dr.
  cbn [fst] in Dv, Dr.
  repeat (apply List.Forall_app; split).
  - eapply List.Forall_impl; [ | exact Dv]. intros e [_ H]. exact H.
  - eapply List.Forall_impl; [ | exact Dr]. intros e [_ H]. exact H.
  - repeat constructor.
Qed.

(** C8. When ingestion returns Records and the report handler returns an
    empty report, the process prints the empty-report message and exits
    with status 0. *)
Theorem empty_report_exit_0 report_handlers fs args vlog valid_files rlog
    data h hlog :
  validate fs (files args) [] = (vlog, Return valid_files) ->
  valid_files <> [] ->
  read_csv_files fs valid_files = (rlog, Return data) ->
  lookup_handler report_handlers (report args) = ([], Return h) ->
  h data = (hlog, Return []) ->
  let run := main_with report_handlers fs (Return args) in
  data <> []
  /\ run = ((vlog ++ rlog ++ hlog ++ [Write Stdout MsgEmptyReport])%list,
            Raise (SystemExit 0))
  /\ exit_status run = 0.
Proof.
  intros Hv Hne Hr Hl Hh run.
  assert (Hrun : run = ((vlog ++ rlog ++ hlog
                         ++ [Write Stdout MsgEmptyReport])%list,
                        Raise (SystemExit 0))).
  { subst run. unfold main_with. cbn [lift bind]. rewrite Hv.
    destruct valid_files as [ | file rest]; [congruence | ].
    cbn [bind]. rewrite Hr. cbn [bind]. rewrite Hl. cbn [bind]. rewrite Hh.
    cbn [bind print sys_exit raise try_except app]. reflexivity. }
  split; [exact (proj2 (read_csv_files_Return _ _ _ _ Hr)) | ].
  split; [exact Hrun | ]. rewrite Hrun. reflexivity.
Qed.

(** *** Instances *)

Lemma read_csv_files_records_witness :
  Forall (fun record =>
            exists file r b s x,
              In file ["phones.csv"]
              /\ In r (rows_of (one_file [csv_row "phone" " apple " "1000"
                                            "4.5"])
                         file)
              /\ r !! field "brand" = Some (VStr b)
              /\ r !! field "rating" = Some (VStr s)
              /\ FloatParse.parse (PyStr.strip s) = Some x
              /\ record !! field "brand" = Some (VStr (PyStr.strip b))
              /\ record !! field "rating" = Some (VFloat x)
              /\ forall k, k <> field "brand" -> k <> field "rating" ->
                           record !! k = r !! k)
    [<[field "rating" := VFloat (lit "4.5")]>
       (<[field "brand" := VStr "apple"]>
          (csv_row "phone" " apple " "1000" "4.5"))].
Proof.
  apply (read_csv_files_records
           (one_file [csv_row "phone" " apple " "1000" "4.5"])
           ["phones.csv"] []).
  vm_compute. reflexivity.
Defined.

Lemma no_records_exit_1_witness :
  let fs := one_file [csv_row "phone" "apple" "1000" "6.0"] in
  let args := Arguments ["phones.csv"] "average-rating" in
  let log := [Write Stdout (WarnRatingRange (lit "6.0") 2 "phones.csv");
              Write Stdout (WarnNoValidData "phones.csv")] in
  let run := main_with [("average-rating", calculate_average_rating Plain)]
               fs (Return args) in
  read_csv_files fs ["phones.csv"]
  = ((log ++ [Write Stdout ErrNoData])%list, Raise (SystemExit 1))
  /\ run = (([] ++ log ++ [Write Stdout ErrNoData])%list,
            Raise (SystemExit 1))
  /\ exit_status run = 1
  /\ Forall (fun e => is_table e = false) (trace run).
Proof.
  intros fs args log.
  apply (no_records_exit_1 [("average-rating", calculate_average_rating Plain)]
           fs args [] ["phones.csv"] log).
  - vm_compute. reflexivity.
  - discriminate.
  - vm_compute. reflexivity.
Defined.

Lemma empty_report_exit_0_witness :
  let fs := one_file [csv_row "phone" "apple" "1000" "4.5"] in
  let args := Arguments ["phones.csv"] "average-rating" in
  let h : handler := fun _ => ret [] in
  let data := [<[field "rating" := VFloat (lit "4.5")]>
                 (csv_row "phone" "apple" "1000" "4.5")] in
  let run := main_with [("average-rating", h)] fs (Return args) in
  data <> []
  /\ run = (([] ++ [] ++ [] ++ [Write Stdout MsgEmptyReport])%list,
            Raise (SystemExit 0))
  /\ exit_status run = 0.
Proof.
  intros fs args h data.
  apply (empty_report_exit_0 [("average-rating", h)] fs args []
           ["phones.csv"] [] data h []).
  - vm_compute. reflexivity.
  - discriminate.
  - vm_compute. reflexivity.
  - reflexivity.
  - reflexivity.
Defined.

(** * Further properties *)

(** ** The Row Ingestor, row by row *)

Lemma strip_empty : PyStr.strip "" = "".
Proof. reflexivity. Qed.

(** The four ways in which the body of the loop over the rows can end. *)
Lemma process_row_cases file row_num r :
  process_row file row_num r = ([], Return (record_of r))
  \/ (bad_format r /\ record_of r = None
      /\ process_row file row_num r
         = ([Write Stdout (WarnRatingFormat row_num file)], Return None))
  \/ (exists x, out_of_range r x /\ record_of r = None
      /\ process_row file row_num r
         = ([Write Stdout (WarnRatingRange x row_num file)], Return None))
  \/ (is_text (get r "brand") && is_text (get r "rating") = false
      /\ process_row file row_num r = ([], Raise AttributeError)).
Proof.
  unfold process_row, get, getitem, record_of, bad_format, out_of_range.
  destruct (r !! field "brand") as [[ | b | bx | bl] | ] eqn:Hb;
    cbn [truthy negb orb]; try (left; reflexivity).
  2: { destruct (negb (eqb bx zero)); cbn [negb orb]; [ | left; reflexivity].
       destruct (negb (truthy _)); cbn [try_except bind raise py_strip ret];
         [left; reflexivity | do 3 right; split; reflexivity]. }
  2: { destruct bl; cbn [negb orb]; [left; reflexivity | ].
       destruct (negb (truthy _)); cbn [try_except bind raise py_strip ret];
         [left; reflexivity | do 3 right; split; reflexivity]. }
  destruct (PyStr.nonempty b) eqn:Nb; cbn [negb orb].
  2: { left. destruct b; [ | discriminate].
       destruct (r !! field "rating") as [[ | s | y | l] | ]; try reflexivity.
       destruct (FloatParse.parse (PyStr.strip s)); reflexivity. }
  destruct (r !! field "rating") as [[ | s | y | l] | ] eqn:Hs;
    cbn [truthy negb orb]; try (left; reflexivity).
  2: { destruct (negb (eqb y zero)); cbn [negb orb]; [ | left; reflexivity].
       do 3 right. split; reflexivity. }
  2: { destruct l; cbn [negb orb]; [left; reflexivity | ].
       do 3 right. split; reflexivity. }
  destruct (PyStr.nonempty s) eqn:Ns; cbn [negb orb].
  2: { left. destruct s; [ | discriminate].
       rewrite strip_empty. cbn [PyStr.nonempty andb].
       destruct (FloatParse.parse ""); [ | reflexivity].
       rewrite andb_false_r. reflexivity. }
  cbn [py_strip bind ret app]. unfold py_float.
  destruct (PyStr.nonempty (PyStr.strip b)) eqn:Nb'; cbn [negb orb andb].
  2: { left. destruct (FloatParse.parse (PyStr.strip s)); reflexivity. }
  destruct (PyStr.nonempty (PyStr.strip s)) eqn:Ns'; cbn [negb orb andb].
  2: { left. destruct (FloatParse.parse (PyStr.strip s)); reflexivity. }
  destruct (FloatParse.parse (PyStr.strip s)) as [x | ] eqn:Hx.
  2: { right; left. cbn [bind raise try_except print ret app].
       split; [exists b, s; auto 10 | split; reflexivity]. }
  cbn [bind ret app].
  destruct (ltb x (of_Z 0) || gtb x (of_Z 5)) eqn:Hr.
  - right; right; left. exists x.
    cbn [bind print ret try_except app].
    split; [exists b, s; auto 10 | ]. split; [ | reflexivity].
    destruct (ltb x (of_Z 0)); [reflexivity | ].
    cbn [orb] in Hr. rewrite Hr. reflexivity.
  - left. apply orb_false_elim in Hr as [-> ->]. reflexivity.
Qed.

(** What a row that is processed without an exception yields. *)
Lemma process_row_Return file row_num r log o :
  process_row file row_num r = (log, Return o) -> o = record_of r.
Proof.
  destruct (process_row_cases file row_num r)
    as [-> | [(_ & -> & ->) | [(x & _ & -> & ->) | (_ & ->)]]];
    intros [= ]; congruence.
Qed.

Lemma process_row_Raise file row_num r log e :
  process_row file row_num r = (log, Raise e) ->
  log = [] /\ e = AttributeError.
Proof.
  destruct (process_row_cases file row_num r)
    as [-> | [(_ & _ & ->) | [(x & _ & _ & ->) | (_ & ->)]]];
    intros [= ]; auto.
Qed.

(** ** The monad: sequencing *)

Lemma bind_assoc {A B C} (m : M A) (f : A -> M B) (g : B -> M C) :
  bind (bind m f) g = bind m (fun a => bind (f a) g).
Proof.
  destruct m as [l1 [a | e]]; cbn [bind]; [ | reflexivity].
  destruct (f a) as [l2 [b | e]]; cbn [bind]; [ | reflexivity].
  destruct (g b) as [l3 r]. rewrite app_assoc. reflexivity.
Qed.

Lemma bind_ext {A B} (m : M A) (k k' : A -> M B) :
  (forall a, k a = k' a) -> bind m k = bind m k'.
Proof.
  intros H. destruct m as [l [a | e]]; cbn [bind]; [ | reflexivity].
  rewrite H. reflexivity.
Qed.

Lemma bind_map_result {A B C} (g : A -> B) (m : M A) (k : B -> M C) :
  bind (map_result g m) k = bind m (fun a => k (g a)).
Proof. destruct m as [l [a | e]]; reflexivity. Qed.

Lemma map_result_bind {A B C} (g : B -> C) (m : M A) (k : A -> M B) :
  map_result g (bind m k) = bind m (fun a => map_result g (k a)).
Proof.
  destruct m as [l [a | e]]; cbn [bind]; [ | reflexivity].
  destruct (k a) as [l2 [b | e]]; reflexivity.
Qed.

Lemma map_result_ret {A B} (g : A -> B) a :
  map_result g (ret a) = ret (g a).
Proof. reflexivity. Qed.

Lemma try_except_ext {A} (m m' : M A) h h' :
  m = m' -> (forall e, h e = h' e) -> try_except m h = try_except m' h'.
Proof.
  intros <- H. destruct m as [l [a | e]]; cbn [try_except]; [reflexivity | ].
  rewrite H. reflexivity.
Qed.

Lemma map_result_try {A B} (g : A -> B) (m : M A) h :
  map_result g (try_except m h)
  = try_except (map_result g m) (fun e => option_map (map_result g) (h e)).
Proof.
  destruct m as [l [a | e]]; [reflexivity | ].
  unfold map_result. cbn [try_except trace result fst snd].
  destruct (h e) as [[l2 r] | ]; reflexivity.
Qed.

(** ** The Row Ingestor, file by file *)

(** The rows read so far do not influence how the remaining rows are
    read. *)
Lemma read_rows_shift file rows d0 k0 : forall row_num data k,
  read_rows file row_num rows (d0 ++ data)%list (k0 + k)
  = map_result (fun st => ((d0 ++ fst st)%list, k0 + snd st))
      (read_rows file row_num rows data k).
Proof.
  induction rows as [ | r rows IH]; intros row_num data k; cbn [read_rows].
  - reflexivity.
  - rewrite map_result_bind. apply bind_ext. intros [record | ].
    + rewrite <- app_assoc, <- Z.add_assoc. apply IH.
    + apply IH.
Qed.

Lemma read_file_shift fs file d0 data :
  read_file fs file (d0 ++ data)%list
  = map_result (app d0) (read_file fs file data).
Proof.
  unfold read_file. symmetry.
  rewrite map_result_try.
  apply try_except_ext; [ | intros e; destruct e; reflexivity].
  destruct (contents (fs file)) as [e | fieldnames rows failure];
    [reflexivity | ].
  destruct (missing_columns fieldnames); [reflexivity | ].
  rewrite map_result_bind.
  rewrite <- (Z.add_0_r 0) at 2. rewrite read_rows_shift.
  rewrite bind_map_result. apply bind_ext. intros [d k]. cbn [fst snd].
  destruct failure as [e | ]; [reflexivity | ].
  rewrite Z.add_0_l. destruct (k =? 0); reflexivity.
Qed.

Lemma read_files_shift fs files d0 : forall data,
  read_files fs files (d0 ++ data)%list
  = map_result (app d0) (read_files fs files data).
Proof.
  induction files as [ | file files IH]; intros data; cbn [read_files].
  - reflexivity.
  - rewrite read_file_shift, bind_map_result, map_result_bind.
    apply bind_ext. intros d. apply IH.
Qed.

(** Reading a list of files is reading its parts one after the other. *)
Lemma read_files_app fs files1 files2 : forall data,
  read_files fs (files1 ++ files2) data
  = bind (read_files fs files1 data) (read_files fs files2).
Proof.
  induction files1 as [ | file files1 IH]; intros data;
    cbn [read_files app].
  - cbn [bind ret]. destruct (read_files fs files2 data). reflexivity.
  - rewrite bind_assoc. apply bind_ext. intros d. apply IH.
Qed.

Lemma read_rows_records file rows : forall row_num data k log data' k',
  read_rows file row_num rows data k = (log, Return (data', k')) ->
  data' = (data ++ omap record_of rows)%list
  /\ k' = k + Z.of_nat (List.length (omap record_of rows)).
Proof.
  induction rows as [ | r rows IH]; intros row_num data k log data' k' H.
  - injection H as <- <- <-. rewrite app_nil_r. split; [reflexivity | ].
    simpl. lia.
  - cbn [read_rows] in H.
    apply bind_Return in H as (l1 & o & l2 & Hrow & Hrest & ->).
    apply process_row_Return in Hrow. subst o. cbn [omap list_omap].
    fold (omap record_of rows).
    destruct (record_of r) as [record | ].
    + apply IH in Hrest as [-> ->]. rewrite <- app_assoc.
      split; [reflexivity | ]. simpl List.length. lia.
    + apply IH in Hrest as [-> ->]. split; reflexivity.
Qed.

Lemma read_rows_Raise file rows : forall row_num data k log e,
  read_rows file row_num rows data k = (log, Raise e) -> e = AttributeError.
Proof.
  induction rows as [ | r rows IH]; intros row_num data k log e H.
  - discriminate.
  - cbn [read_rows] in H.
    destruct (process_row file row_num r) as [l1 [o | e1]] eqn:Hrow.
    + cbn [bind] in H. destruct o as [record | ].
      * destruct (read_rows file (row_num + 1) rows (data ++ [record]) (k + 1))
          as [l2 r2] eqn:Hrest.
        injection H as <- ->. eapply IH. exact Hrest.
      * destruct (read_rows file (row_num + 1) rows data k)
          as [l2 r2] eqn:Hrest.
        injection H as <- ->. eapply IH. exact Hrest.
    + injection H as <- <-.
      apply process_row_Raise in Hrow. tauto.
Qed.

Lemma read_file_records fs file data log data' :
  read_file fs file data = (log, Return data') ->
  data' = (data ++ records_of fs file)%list /\ read_error fs file = None.
Proof.
  unfold read_file, records_of, read_error. intros H.
  apply try_except_Return in H as [H | (l1 & e & h & l2 & _ & Hh & -> & _)].
  - destruct (contents (fs file)) as [e | fieldnames rows failure];
      [discriminate | ].
    destruct (missing_columns fieldnames).
    + injection H as <- <-. rewrite app_nil_r. split; reflexivity.
    + apply bind_Return in H as (l1 & [d k] & l2 & Hrows & Hrest & ->).
      destruct failure as [e | ]; [discriminate | ].
      apply bind_Return in Hrest as (l3 & [] & l4 & _ & [= <- <-] & _).
      apply read_rows_records in Hrows as [-> _]. split; reflexivity.
  - destruct e; simpl in Hh; try discriminate; injection Hh as [= ].
Qed.

Lemma read_file_Raise fs file data log e :
  read_file fs file data = (log, Raise e) ->
  e = SystemExit 1 \/ (is_Exception e = false /\ read_error fs file = Some e).
Proof.
  unfold read_file, read_error.
  destruct (contents (fs file)) as [e0 | fieldnames rows failure].
  - destruct e0; cbn; intros [= <- <-]; auto.
  - destruct (missing_columns fieldnames); [discriminate | ].
    destruct (read_rows file 2 rows data 0) as [l1 [[d k] | e1]] eqn:Hrows.
    + cbn [bind fst snd]. destruct failure as [e0 | ].
      * destruct e0; cbn; intros [= <- <-]; auto.
      * destruct (k =? 0); discriminate.
    + apply read_rows_Raise in Hrows. subst e1. cbn. intros [= <- <-]. auto.
Qed.

Lemma read_files_records fs files : forall data log data',
  read_files fs files data = (log, Return data') ->
  data' = (data ++ flat_map (records_of fs) files)%list.
Proof.
  induction files as [ | file files IH]; intros data log data' H.
  - injection H as <- <-. rewrite app_nil_r. reflexivity.
  - cbn [read_files] in H.
    apply bind_Return in H as (l1 & d & l2 & Hfile & Hrest & ->).
    apply read_file_records in Hfile as [-> _].
    apply IH in Hrest as ->. rewrite <- app_assoc. reflexivity.
Qed.

Lemma read_files_Raise fs files : forall data log e,
  read_files fs files data = (log, Raise e) ->
  e = SystemExit 1
  \/ (is_Exception e = false
      /\ exists file, In file files /\ read_error fs file = Some e).
Proof.
  induction files as [ | file files IH]; intros data log e H.
  - discriminate.
  - cbn [read_files] in H.
    destruct (read_file fs file data) as [l1 [d | e1]] eqn:Hfile.
    + cbn [bind] in H.
      destruct (read_files fs files d) as [l2 r2] eqn:Hrest.
      injection H as <- ->.
      apply IH in Hrest as [-> | (He & f & Hf & Hr)]; [auto | ].
      right. split; [exact He | ]. exists f. simpl. auto.
    + injection H as <- <-.
      apply read_file_Raise in Hfile as [-> | (He & Hr)]; [auto | ].
      right. split; [exact He | ]. exists file. simpl. auto.
Qed.

(** X1. The Records that [read_csv_files] returns are the Records of the
    rows of the files, in the order of the files and, within a file, of its
    rows: no row that gives a Record is left out, and none is moved. *)
Theorem read_csv_files_in_order fs files log data :
  read_csv_files fs files = (log, Return data) ->
  data = flat_map (records_of fs) files.
Proof.
  intros H. apply read_csv_files_Return in H as [H _].
  apply read_files_records in H. exact H.
Qed.

Lemma read_csv_files_Raise fs files log e :
  read_csv_files fs files = (log, Raise e) ->
  e = SystemExit 1
  \/ (is_Exception e = false
      /\ exists file, In file files /\ read_error fs file = Some e).
Proof.
  unfold read_csv_files.
  destruct (read_files fs files []) as [l [d | e0]] eqn:H; cbn [bind].
  - destruct d as [ | r d]; cbn; intros [= <- <-]. auto.
  - intros [= <- <-]. eapply read_files_Raise. exact H.
Qed.

(** X2. [read_csv_files] never returns an empty list and never lets an
    [Exception] escape: it returns at least one Record, or it exits with
    status 1, or reading a file was interrupted by an exception outside the
    class [Exception] ([KeyboardInterrupt], [SystemExit]), which it does
    not catch. *)
Theorem read_csv_files_outcome fs files :
  match result (read_csv_files fs files) with
  | Return data => data <> []
  | Raise e =>
      e = SystemExit 1
      \/ (is_Exception e = false
          /\ exists file, In file files /\ read_error fs file = Some e)
  end.
Proof.
  destruct (read_csv_files fs files) as [log [data | e]] eqn:H;
    cbn [result snd].
  - apply read_csv_files_Return in H. tauto.
  - eapply read_csv_files_Raise. exact H.
Qed.

(** X3. Reading two lists of files in one call gives the Records of the
    first list followed by those of the second, after the messages of both
    in this order: the Records of earlier files have no influence on how
    later files are read. *)
Theorem read_csv_files_app fs files1 files2 log1 data1 log2 data2 :
  read_csv_files fs files1 = (log1, Return data1) ->
  read_csv_files fs files2 = (log2, Return data2) ->
  read_csv_files fs (files1 ++ files2)
  = ((log1 ++ log2)%list, Return (data1 ++ data2)%list).
Proof.
  intros H1 H2.
  apply read_csv_files_Return in H1 as [H1 Hne].
  apply read_csv_files_Return in H2 as [H2 _].
  unfold read_csv_files. rewrite read_files_app, H1. cbn [bind].
  rewrite <- (app_nil_r data1) at 1. rewrite read_files_shift, H2.
  cbn [map_result trace result fst snd bind].
  destruct data1 as [ | r d]; [congruence | ].
  cbn [app ret]. rewrite !app_nil_r. reflexivity.
Qed.

(** X4. A file that cannot be opened ends the run at once: the messages of
    the files before it are followed by one error message for this file,
    the process exits with status 1, the Records read so far are dropped
    and the files after it are not read. *)
Theorem read_csv_files_fail_fast fs files file rest log data e :
  read_files fs files [] = (log, Return data) ->
  contents (fs file) = Unreadable e ->
  is_Exception e = true ->
  read_csv_files fs (files ++ file :: rest)
  = ((log ++ [Write Stdout (read_failure file e)])%list,
     Raise (SystemExit 1)).
Proof.
  intros Hpre Hfile He.
  unfold read_csv_files. rewrite read_files_app, Hpre.
  cbn [bind read_files]. unfold read_file. rewrite Hfile.
  destruct e; try discriminate He; reflexivity.
Qed.

Lemma has_field_In names name : has_field names name = true <-> In name names.
Proof.
  unfold has_field. rewrite existsb_exists. split.
  - intros (x & Hx & Heq). apply String.eqb_eq in Heq. subst. exact Hx.
  - intros H. exists name. split; [exact H | apply String.eqb_refl].
Qed.

Lemma missing_columns_spec fieldnames :
  missing_columns fieldnames = false
  <-> exists names, fieldnames = Some names
                    /\ In "brand" names /\ In "rating" names.
Proof.
  unfold missing_columns. destruct fieldnames as [names | ].
  - cbn [forallb]. rewrite andb_true_r, negb_false_iff, andb_true_iff.
    rewrite !has_field_In. split.
    + intros H. exists names. tauto.
    + intros (n & [= <-] & H). exact H.
  - split; [discriminate | intros (n & [= ] & _)].
Qed.

(** X5. A file whose header is missing, or has no column named exactly
    [brand] or none named exactly [rating], gives one warning and nothing
    else: its rows are not looked at (so that a defect further down in the
    file goes unnoticed), and the run goes on with the next file. *)
Theorem missing_columns_skips_file fs file rest data fieldnames rows failure :
  contents (fs file) = Csv fieldnames rows failure ->
  (forall names, fieldnames = Some names ->
                 ~ (In "brand" names /\ In "rating" names)) ->
  read_files fs (file :: rest) data
  = (Write Stdout (WarnMissingColumns file) :: trace (read_files fs rest data),
     result (read_files fs rest data)).
Proof.
  intros Hfile Hnames. cbn [read_files]. unfold read_file. rewrite Hfile.
  destruct (missing_columns fieldnames) eqn:Hm.
  - cbn [print ret bind try_except app].
    destruct (read_files fs rest data) as [l r]. reflexivity.
  - apply missing_columns_spec in Hm as (names & -> & H).
    destruct (Hnames names eq_refl H).
Qed.

(** ** The warnings about rows *)

Lemma names_row_here file n r rows e :
  names_row file n [r] e -> names_row file n (r :: rows) e.
Proof.
  unfold names_row.
  destruct (text e); try tauto;
    intros (Hf & Hn & r' & Hr & Hbad); (split; [exact Hf | ]);
    (split; [exact Hn | ]); exists r'; (split; [ | exact Hbad]);
    destruct (Z.to_nat _) as [ | [ | i]]; cbn in *; congruence.
Qed.

Lemma names_row_later file n r rows e :
  names_row file (n + 1) rows e -> names_row file n (r :: rows) e.
Proof.
  unfold names_row.
  destruct (text e) as [ | x m f | m f | | | | | | | | | | | | | | ];
    try tauto;
    intros (Hf & Hn & r' & Hr & Hbad); (split; [exact Hf | ]);
    (split; [lia | ]); exists r'; (split; [ | exact Hbad]);
    replace (Z.to_nat (m - n)) with (S (Z.to_nat (m - (n + 1)))) by lia;
    exact Hr.
Qed.

Lemma process_row_names_row file row_num r :
  all_events (names_row file row_num [r]) (process_row file row_num r).
Proof.
  unfold all_events, names_row.
  destruct (process_row_cases file row_num r)
    as [-> | [(Hbad & _ & ->) | [(x & Hbad & _ & ->) | (_ & ->)]]];
    cbn [trace fst]; repeat constructor; cbn [text]; try lia;
    exists r; rewrite Z.sub_diag; (split; [reflexivity | exact Hbad]).
Qed.

Lemma read_rows_names_row file rows : forall row_num data k,
  all_events (names_row file row_num rows)
    (read_rows file row_num rows data k).
Proof.
  induction rows as [ | r rows IH]; intros row_num data k; cbn [read_rows].
  - constructor.
  - apply all_events_bind.
    + eapply List.Forall_impl; [ | apply process_row_names_row].
      intros e. apply names_row_here.
    + intros [record | ];
        (eapply List.Forall_impl; [ | apply IH]);
        intros e; apply names_row_later.
Qed.

Lemma read_file_names_row fs file data :
  all_events (warning_names_row fs [file]) (read_file fs file data).
Proof.
  unfold read_file, rows_of. apply all_events_try.
  - destruct (contents (fs file)) as [e | fieldnames rows failure] eqn:Hc;
      [constructor | ].
    destruct (missing_columns fieldnames); [repeat constructor | ].
    apply all_events_bind.
    + eapply List.Forall_impl; [ | apply read_rows_names_row].
      intros e He. unfold warning_names_row, names_row, rows_of in *.
      destruct (text e); try exact I; destruct He as (-> & He);
        rewrite Hc; (split; [left; reflexivity | ]);
        (split; [reflexivity | exact He]).
    + intros [d k]. destruct failure as [e | ]; [constructor | ].
      cbn [fst snd]. destruct (k =? 0); repeat constructor.
  - intros e h He.
    destruct e; cbn [is_Exception] in He; try discriminate He;
      injection He as <-; repeat constructor.
Qed.

Lemma warning_names_row_mono fs files files' e :
  (forall f, In f files -> In f files') ->
  warning_names_row fs files e -> warning_names_row fs files' e.
Proof.
  unfold warning_names_row. intros H. destruct (text e); try tauto;
    intros [Hf Hn]; auto.
Qed.

Lemma read_files_names_row fs files : forall data,
  all_events (warning_names_row fs files) (read_files fs files data).
Proof.
  induction files as [ | file files IH]; intros data; cbn [read_files].
  - constructor.
  - apply all_events_bind.
    + eapply List.Forall_impl; [ | apply read_file_names_row].
      intros e. apply warning_names_row_mono. intros f [-> | []]. left.
      reflexivity.
    + intros d. eapply List.Forall_impl; [ | apply IH].
      intros e. apply warning_names_row_mono. intros f Hf. right. exact Hf.
Qed.

(** X6. Every warning about a row that [read_csv_files] prints names one of
    the files it was given and the number of a row of that file that has
    the defect the warning states, a rating text that is no number or a
    rating that fails the range check; the rows of a file are numbered
    from 2 on. *)
Theorem row_warnings_name_rows fs files :
  Forall (fun e =>
            match text e with
            | WarnRatingFormat n file =>
                In file files /\ 2 <= n
                /\ exists r, rows_of fs file !! Z.to_nat (n - 2) = Some r
                             /\ bad_format r
            | WarnRatingRange x n file =>
                In file files /\ 2 <= n
                /\ exists r, rows_of fs file !! Z.to_nat (n - 2) = Some r
                             /\ out_of_range r x
            | _ => True
            end)
    (trace (read_csv_files fs files)).
Proof.
  assert (H : all_events (warning_names_row fs files)
                (read_csv_files fs files)).
  { unfold read_csv_files. apply all_events_bind.
    - apply read_files_names_row.
    - intros [ | r d]; repeat constructor. }
  eapply List.Forall_impl; [ | exact H].
  intros e. unfold warning_names_row, names_row.
  destruct (text e); tauto.
Qed.

Lemma nonempty_strip s :
  PyStr.nonempty (PyStr.strip s) = true -> PyStr.nonempty s = true.
Proof. destruct s; [discriminate | reflexivity]. Qed.

Lemma process_row_bad_format file row_num r :
  bad_format r ->
  process_row file row_num r
  = ([Write Stdout (WarnRatingFormat row_num file)], Return None).
Proof.
  intros (b & s & Hb & Hs & Nb & Ns & Hx).
  unfold process_row, get, getitem, py_float. rewrite Hb, Hs.
  cbn [truthy]. rewrite (nonempty_strip _ Nb), (nonempty_strip _ Ns).
  cbn [negb orb py_strip bind ret app]. rewrite Nb, Ns, Hx. reflexivity.
Qed.

Lemma process_row_out_of_range file row_num r x :
  out_of_range r x ->
  process_row file row_num r
  = ([Write Stdout (WarnRatingRange x row_num file)], Return None).
Proof.
  intros (b & s & Hb & Hs & Nb & Ns & Hx & Hr).
  unfold process_row, get, getitem, py_float. rewrite Hb, Hs.
  cbn [truthy]. rewrite (nonempty_strip _ Nb), (nonempty_strip _ Ns).
  cbn [negb orb py_strip bind ret app]. rewrite Nb, Ns, Hx.
  cbn [negb orb bind ret app]. rewrite Hr. reflexivity.
Qed.

(** The message a defective row earns. *)
Lemma read_rows_reports file rows : forall row_num data k log st (i : nat) r,
  read_rows file row_num rows data k = (log, Return st) ->
  rows !! i = Some r ->
  (bad_format r ->
   In (Write Stdout (WarnRatingFormat (row_num + Z.of_nat i) file)) log)
  /\ (forall x, out_of_range r x ->
        In (Write Stdout (WarnRatingRange x (row_num + Z.of_nat i) file)) log).
Proof.
  induction rows as [ | r0 rows IH]; intros row_num data k log st i r H Hi;
    [discriminate | ].
  cbn [read_rows] in H.
  apply bind_Return in H as (l1 & o & l2 & Hrow & Hrest & ->).
  destruct i as [ | i].
  - injection Hi as ->. rewrite Z.add_0_r. split.
    + intros Hbad. rewrite (process_row_bad_format _ _ _ Hbad) in Hrow.
      injection Hrow as <- _. left. reflexivity.
    + intros x Hbad. rewrite (process_row_out_of_range _ _ _ _ Hbad) in Hrow.
      injection Hrow as <- _. left. reflexivity.
  - cbn in Hi.
    replace (row_num + Z.of_nat (S i)) with (row_num + 1 + Z.of_nat i) by lia.
    destruct o as [record | ];
      destruct (IH _ _ _ _ _ i r Hrest Hi) as [H1 H2];
      (split; [intros Hbad | intros x Hbad]); apply in_or_app; right; auto.
Qed.

Lemma no_valid_data_not_names_row file first rows f :
  ~ names_row file first rows (Write Stdout (WarnNoValidData f)).
Proof. intros []. Qed.

(** What a file that is read to its end leaves in the log. *)
Lemma read_file_log fs file data log data' :
  read_file fs file data = (log, Return data') ->
  (forall f, In (Write Stdout (WarnNoValidData f)) log
             <-> f = file /\ header_ok fs file = true
                 /\ records_of fs file = [])
  /\ (header_ok fs file = true ->
      forall (i : nat) r, rows_of fs file !! i = Some r ->
        (bad_format r ->
         In (Write Stdout (WarnRatingFormat (2 + Z.of_nat i) file)) log)
        /\ (forall x, out_of_range r x ->
              In (Write Stdout (WarnRatingRange x (2 + Z.of_nat i) file))
                log)).
Proof.
  unfold read_file, header_ok, records_of, rows_of. intros H.
  apply try_except_Return in H as [H | (l1 & e & h & l2 & _ & Hh & -> & _)].
  2: { destruct e; simpl in Hh; try discriminate; injection Hh as [= ]. }
  destruct (contents (fs file)) as [e | fieldnames rows failure];
    [discriminate | ].
  destruct (missing_columns fieldnames).
  - injection H as <- <-. split; [ | discriminate].
    intros f. split.
    + intros [[= ] | []].
    + intros (_ & [= ] & _).
  - apply bind_Return in H as (l1 & [d k] & l2 & Hrows & Hrest & ->).
    destruct failure as [e | ]; [discriminate | ].
    apply bind_Return in Hrest as (l3 & [] & l4 & Hwarn & [= <- <-] & ->).
    rewrite app_nil_r. cbn [fst snd] in Hwarn. split.
    + intros f.
      pose proof (read_rows_names_row file rows 2 data 0) as Hnames.
      unfold all_events, trace in Hnames. rewrite Hrows in Hnames.
      cbn [fst] in Hnames. rewrite List.Forall_forall in Hnames.
      apply read_rows_records in Hrows as [_ ->].
      rewrite in_app_iff. split.
      * intros [Hin | Hin];
          [destruct (no_valid_data_not_names_row _ _ _ _ (Hnames _ Hin)) | ].
        destruct (omap record_of rows) as [ | x new].
        -- injection Hwarn as <-. destruct Hin as [[= <-] | []]. auto.
        -- cbn in Hwarn. injection Hwarn as <-. destruct Hin.
      * intros (-> & _ & Hnew). right. rewrite Hnew in Hwarn.
        injection Hwarn as <-. left. reflexivity.
    + intros _ i r Hi.
      destruct (read_rows_reports _ _ _ _ _ _ _ i r Hrows Hi) as [H1 H2].
      split; [intros Hbad | intros x Hbad]; apply in_or_app; left; auto.
Qed.

Lemma read_files_log fs files : forall data log data',
  read_files fs files data = (log, Return data') ->
  (forall f, In (Write Stdout (WarnNoValidData f)) log
             <-> In f files /\ header_ok fs f = true
                 /\ records_of fs f = [])
  /\ (forall file (i : nat) r,
        In file files -> header_ok fs file = true ->
        rows_of fs file !! i = Some r ->
        (bad_format r ->
         In (Write Stdout (WarnRatingFormat (2 + Z.of_nat i) file)) log)
        /\ (forall x, out_of_range r x ->
              In (Write Stdout (WarnRatingRange x (2 + Z.of_nat i) file))
                log)).
Proof.
  induction files as [ | file files IH]; intros data log data' H.
  - injection H as <- <-. split.
    + intros f. cbn. tauto.
    + intros file i r [].
  - cbn [read_files] in H.
    apply bind_Return in H as (l1 & d & l2 & Hfile & Hrest & ->).
    apply read_file_log in Hfile as [F1 F2].
    apply IH in Hrest as [R1 R2]. split.
    + intros f. rewrite in_app_iff, F1, R1. cbn [In]. split.
      * intros [(-> & H) | (Hin & H)]; auto.
      * intros ([<- | Hin] & H); auto.
    + intros f i r [<- | Hin] Hok Hi.
      * destruct (F2 Hok i r Hi) as [H1 H2].
        split; [intros Hbad | intros x Hbad]; apply in_or_app; left; auto.
      * destruct (R2 f i r Hin Hok Hi) as [H1 H2].
        split; [intros Hbad | intros x Hbad]; apply in_or_app; right; auto.
Qed.

(** X7. When [read_csv_files] returns, it has reported every defective row
    of the files it has read: the row at position [i] of a file with the
    required columns has earned the warning with the row number [i + 2],
    for the format of its rating or for its range. *)
Theorem defective_rows_are_reported fs files log data file (i : nat) r :
  read_csv_files fs files = (log, Return data) ->
  In file files -> header_ok fs file = true ->
  rows_of fs file !! i = Some r ->
  (bad_format r ->
   In (Write Stdout (WarnRatingFormat (2 + Z.of_nat i) file)) log)
  /\ (forall x, out_of_range r x ->
        In (Write Stdout (WarnRatingRange x (2 + Z.of_nat i) file)) log).
Proof.
  intros H. apply read_csv_files_Return in H as [H _].
  apply read_files_log in H as [_ H]. apply H.
Qed.

(** X8. When [read_csv_files] returns, it has warned that a file holds no
    valid data exactly for the files that have the required columns and
    gave no Record, a file with a header and no row among them. *)
Theorem no_valid_data_warning fs files log data file :
  read_csv_files fs files = (log, Return data) ->
  (In (Write Stdout (WarnNoValidData file)) log
   <-> In file files /\ header_ok fs file = true
       /\ records_of fs file = []).
Proof.
  intros H. apply read_csv_files_Return in H as [H _].
  apply read_files_log in H as [H _]. apply H.
Qed.

(** ** Trimmed text *)

Lemma lstrip_chars_length l :
  (List.length (PyStr.lstrip_chars l) <= List.length l)%nat.
Proof.
  induction l as [ | c l IH]; cbn [PyStr.lstrip_chars]; [lia | ].
  destruct (PyStr.is_space c); cbn [List.length]; lia.
Qed.

Lemma lstrip_chars_fixed l :
  PyStr.lstrip_chars l = l
  <-> match l with c :: _ => PyStr.is_space c = false | [] => True end.
Proof.
  destruct l as [ | c l]; cbn [PyStr.lstrip_chars]; [tauto | ].
  destruct (PyStr.is_space c) eqn:Hc.
  - split; [ | discriminate]. intros H.
    pose proof (lstrip_chars_length l) as Hlen. rewrite H in Hlen.
    cbn [List.length] in Hlen. lia.
  - tauto.
Qed.

Lemma lstrip_chars_idem l :
  PyStr.lstrip_chars (PyStr.lstrip_chars l) = PyStr.lstrip_chars l.
Proof.
  induction l as [ | c l IH]; cbn [PyStr.lstrip_chars]; [reflexivity | ].
  destruct (PyStr.is_space c) eqn:Hc; [exact IH | ].
  cbn [PyStr.lstrip_chars]. rewrite Hc. reflexivity.
Qed.

Lemma lstrip_chars_suffix l :
  exists sp, l = (sp ++ PyStr.lstrip_chars l)%list.
Proof.
  induction l as [ | c l (sp & IH)]; cbn [PyStr.lstrip_chars].
  - exists []. reflexivity.
  - destruct (PyStr.is_space c).
    + exists (c :: sp). cbn [app]. rewrite <- IH. reflexivity.
    + exists []. reflexivity.
Qed.

Lemma strip_chars_idem l :
  PyStr.strip_chars (PyStr.strip_chars l) = PyStr.strip_chars l.
Proof.
  unfold PyStr.strip_chars.
  set (a := PyStr.lstrip_chars l).
  set (b := PyStr.lstrip_chars (rev a)).
  assert (Ha : PyStr.lstrip_chars a = a) by apply lstrip_chars_idem.
  assert (Hb : PyStr.lstrip_chars b = b) by apply lstrip_chars_idem.
  destruct (lstrip_chars_suffix (rev a)) as (sp & Hsp). fold b in Hsp.
  assert (Hrev : a = (rev b ++ rev sp)%list).
  { rewrite <- rev_app_distr, <- Hsp, rev_involutive. reflexivity. }
  assert (Ht : PyStr.lstrip_chars (rev b) = rev b).
  { apply lstrip_chars_fixed. apply lstrip_chars_fixed in Ha.
    rewrite Hrev in Ha. destruct (rev b); [exact I | exact Ha]. }
  rewrite Ht, rev_involutive, Hb. reflexivity.
Qed.

(** Trimming a trimmed text changes nothing. *)
Lemma strip_idem s : PyStr.strip (PyStr.strip s) = PyStr.strip s.
Proof.
  unfold PyStr.strip. rewrite list_ascii_of_string_of_list_ascii.
  rewrite strip_chars_idem. reflexivity.
Qed.

(** X9. Every Record that [read_csv_files] returns has a brand that is a
    non-empty text without white space at its ends, and a rating that is a
    float within [0, 5] or NaN. *)
Theorem read_csv_files_record_shape fs files log data :
  read_csv_files fs files = (log, Return data) ->
  Forall (fun record =>
            exists b x,
              record !! field "brand" = Some (VStr b)
              /\ PyStr.nonempty b = true /\ PyStr.strip b = b
              /\ record !! field "rating" = Some (VFloat x)
              /\ (in_range x = true \/ is_nan x = true)) data.
Proof.
  intros H. apply read_csv_files_Return in H as [H _].
  apply read_files_Return in H as (new & -> & Hnew). cbn [app].
  eapply List.Forall_impl; [ | exact Hnew].
  intros record (file & _ & r & _ & Hacc).
  destruct (accepted_rating _ _ Hacc) as (b & x & Hb & Nb & Hx & Hr).
  exists b, x. split; [exact Hb | ]. split; [exact Nb | ].
  split; [ | split; [exact Hx | exact Hr]].
  destruct Hacc as (b0 & s & x0 & _ & _ & _ & _ & _ & _ & ->).
  rewrite lookup_insert_ne in Hb by discriminate.
  rewrite lookup_insert_eq in Hb. injection Hb as <-. apply strip_idem.
Qed.

(** X10. A row in which the brand or the rating is missing, empty or made
    of white space only gives no Record and no message, even when the other
    of the two fields is malformed; both fields are texts or [None], as the
    CSV reader delivers them. *)
Theorem blank_row_skipped_silently file row_num r :
  is_text (get r "brand") = true -> is_text (get r "rating") = true ->
  blank (get r "brand") || blank (get r "rating") = true ->
  process_row file row_num r = ([], Return None).
Proof.
  intros Tb Tr Hblank.
  assert (Hnone : record_of r = None).
  { unfold record_of, get, blank in *.
    destruct (r !! field "brand") as [[ | b | | ] | ]; try reflexivity;
      destruct (r !! field "rating") as [[ | s | | ] | ]; try reflexivity.
    destruct (FloatParse.parse (PyStr.strip s)); [ | reflexivity].
    destruct (PyStr.nonempty (PyStr.strip b));
      destruct (PyStr.nonempty (PyStr.strip s));
      try discriminate Hblank; reflexivity. }
  destruct (process_row_cases file row_num r)
    as [-> | [(Hbad & _) | [(x & Hbad & _) | (Htext & _)]]].
  - rewrite Hnone. reflexivity.
  - destruct Hbad as (b & s & Hb & Hs & Nb & Ns & _).
    unfold get, blank in Hblank. rewrite Hb, Hs, Nb, Ns in Hblank.
    discriminate Hblank.
  - destruct Hbad as (b & s & Hb & Hs & Nb & Ns & _).
    unfold get, blank in Hblank. rewrite Hb, Hs, Nb, Ns in Hblank.
    discriminate Hblank.
  - rewrite Tb, Tr in Htext. discriminate Htext.
Qed.

(** ** The Aggregator on arbitrary rows *)

Lemma add_row_usable r t :
  add_row r t
  = if usable r then Some (append_rating (brand_of r) (rating_of r) t)
    else None.
Proof.
  unfold add_row, usable, brand_of, rating_of, get.
  destruct (r !! field "brand") as [b | ]; [ | reflexivity].
  destruct (r !! field "rating") as [x | ]; reflexivity.
Qed.

Lemma filter_usable_length data :
  (List.length (List.filter usable data) <= List.length data)%nat.
Proof.
  induction data as [ | r data IH]; cbn [List.filter]; [lia | ].
  destruct (usable r); cbn [List.length]; lia.
Qed.

(** The rows without the keys only count. *)
Lemma group_rows_filter data : forall t k,
  group_rows data t k
  = (fst (group_rows (List.filter usable data) t 0),
     k + Z.of_nat (List.length data
                   - List.length (List.filter usable data))).
Proof.
  induction data as [ | r data IH]; intros t k;
    cbn [group_rows List.filter].
  - cbn. rewrite Z.add_0_r. reflexivity.
  - pose proof (filter_usable_length data) as Hlen.
    rewrite add_row_usable. destruct (usable r) eqn:Hr.
    + cbn [group_rows]. rewrite add_row_usable, Hr. rewrite IH.
      cbn [List.length]. f_equal.
    + rewrite IH. cbn [List.length]. f_equal. lia.
Qed.

Lemma group_rows_usable data : forall t k,
  Forall (fun r => usable r = true) data ->
  snd (group_rows data t k) = k.
Proof.
  intros t k H. rewrite group_rows_filter. cbn [snd].
  assert (Hf : List.filter usable data = data).
  { induction H as [ | r data Hr _ IH]; cbn [List.filter]; [reflexivity | ].
    rewrite Hr, IH. reflexivity. }
  rewrite Hf. lia.
Qed.

Lemma filter_usable_Forall data :
  Forall (fun r => usable r = true) (List.filter usable data).
Proof.
  apply List.Forall_forall. intros r Hr.
  apply filter_In in Hr. tauto.
Qed.

Lemma append_rating_not_nil b x t : append_rating b x t <> [].
Proof.
  destruct t as [ | [b' xs] t]; cbn [append_rating]; [discriminate | ].
  destruct (key_eqb b' b); discriminate.
Qed.

Lemma group_rows_not_nil data : forall t k,
  t <> [] -> fst (group_rows data t k) <> [].
Proof.
  induction data as [ | r data IH]; intros t k Ht; cbn [group_rows].
  - exact Ht.
  - rewrite add_row_usable. destruct (usable r); apply IH;
      [apply append_rating_not_nil | exact Ht].
Qed.

(** The table is empty exactly when no row is usable. *)
Lemma group_rows_nil data :
  fst (group_rows data [] 0) = [] <-> List.filter usable data = [].
Proof.
  induction data as [ | r data IH]; cbn [group_rows List.filter];
    [tauto | ].
  rewrite add_row_usable. destruct (usable r).
  - split; [ | discriminate]. intros H.
    destruct (group_rows_not_nil data _ 0 (append_rating_not_nil
                (brand_of r) (rating_of r) []) H).
  - rewrite group_rows_filter in *. cbn [fst] in *. exact IH.
Qed.

(** What the Aggregator returns and what it prints, by the rows it keeps. *)
Lemma calculate_average_rating_kept alg data :
  result (calculate_average_rating alg data)
  = result (calculate_average_rating alg (List.filter usable data))
  /\ trace (calculate_average_rating alg data)
     = ((if 0 <? Z.of_nat (List.length data
                          - List.length (List.filter usable data))
         then [Write Stdout
                 (WarnSkipped
                    (Z.of_nat (List.length data
                               - List.length (List.filter usable data))))]
         else [])
        ++ match List.filter usable data with
           | [] => [Write Stdout ErrNothingToAverage]
           | _ => []
           end)%list.
Proof.
  set (kept := List.filter usable data).
  set (skipped := Z.of_nat (List.length data - List.length kept)).
  pose proof (group_rows_nil data) as Hnil.
  pose proof (group_rows_usable kept [] 0 (filter_usable_Forall data))
    as Hkept.
  unfold calculate_average_rating.
  rewrite (group_rows_filter data [] 0). fold kept. rewrite Z.add_0_l.
  fold skipped. rewrite group_rows_filter in Hnil. cbn [fst] in Hnil.
  fold kept in Hnil. clearbody kept skipped.
  destruct (group_rows kept [] 0) as [t k] eqn:Hg. cbn [fst snd] in *.
  subst k. change (0 <? 0) with false.
  destruct t as [ | entry t].
  - rewrite (proj1 Hnil eq_refl).
    destruct (0 <? skipped); split; reflexivity.
  - destruct kept as [ | r kept'].
    { discriminate (proj2 Hnil eq_refl). }
    destruct (build_report alg (entry :: t)) as [rep | e];
      destruct (0 <? skipped); split; reflexivity.
Qed.

(** X11. Rows without the key [brand] or [rating], or with an unhashable
    brand, have no influence on the report: it is the report of the other
    rows. The Aggregator prints the number of such rows when there are
    some, then its error message when no row is left, and nothing else. *)
Theorem calculate_average_rating_ignores_unusable alg data :
  let kept := List.filter usable data in
  let skipped := Z.of_nat (List.length data - List.length kept) in
  result (calculate_average_rating alg data)
  = result (calculate_average_rating alg kept)
  /\ trace (calculate_average_rating alg data)
     = ((if 0 <? skipped then [Write Stdout (WarnSkipped skipped)] else [])
        ++ match kept with
           | [] => [Write Stdout ErrNothingToAverage]
           | _ => []
           end)%list.
Proof. intros kept skipped. apply calculate_average_rating_kept. Qed.

Lemma sum_plain_floats l : forall acc,
  match sum_plain acc l with
  | Return _ => forallb is_float l = true
  | Raise e => forallb is_float l = false /\ e = TypeError
  end.
Proof.
  induction l as [ | v l IH]; intros acc; cbn [sum_plain forallb];
    [reflexivity | ].
  destruct v as [ | s | x | xs]; cbn [is_float andb]; auto. apply IH.
Qed.

Lemma sum_compensated_floats l : forall hi lo,
  match sum_compensated hi lo l with
  | Return _ => forallb is_float l = true
  | Raise e => forallb is_float l = false /\ e = TypeError
  end.
Proof.
  induction l as [ | v l IH]; intros hi lo;
    cbn [sum_compensated forallb]; [reflexivity | ].
  destruct v as [ | s | x | xs]; cbn [is_float andb]; auto. apply IH.
Qed.

(** [sum / len] of a non-empty list: a float when all operands are floats,
    [TypeError] otherwise. *)
Lemma mean_floats alg l :
  l <> [] ->
  match mean alg l with
  | Return _ => forallb is_float l = true
  | Raise e => forallb is_float l = false /\ e = TypeError
  end.
Proof.
  intros Hne. unfold mean, py_sum.
  destruct l as [ | v l]; [congruence | ].
  destruct v as [ | s | x | xs]; cbn [forallb is_float andb]; auto.
  destruct alg.
  - pose proof (sum_plain_floats l (add (of_Z 0) x)) as H.
    destruct (sum_plain _ l); exact H.
  - pose proof (sum_compensated_floats l (add (of_Z 0) x) zero) as H.
    destruct (sum_compensated _ _ l); exact H.
Qed.

Lemma build_report_floats alg t :
  Forall (fun entry => snd entry <> []) t ->
  match build_report alg t with
  | Return report => numbers t = true /\ List.length report = List.length t
  | Raise e => numbers t = false /\ e = TypeError
  end.
Proof.
  unfold numbers.
  induction 1 as [ | [b xs] t Hxs _ IH]; cbn [build_report forallb snd].
  - auto.
  - pose proof (mean_floats alg xs Hxs) as Hm.
    destruct (mean alg xs) as [m | e].
    + rewrite Hm. cbn [andb].
      destruct (build_report alg t) as [report | e]; [ | exact IH].
      destruct IH as [Hn Hl]. rewrite Hn. cbn [List.length].
      rewrite Hl. auto.
    + destruct Hm as [-> ->]. auto.
Qed.

Lemma append_rating_entries b x t :
  Forall (fun entry => snd entry <> []) t ->
  Forall (fun entry => snd entry <> []) (append_rating b x t).
Proof.
  induction 1 as [ | [b' xs] t Hxs Ht IH]; cbn [append_rating].
  - repeat constructor. discriminate.
  - destruct (key_eqb b' b); constructor; cbn [snd] in *; auto.
    destruct xs; discriminate.
Qed.

Lemma append_rating_numbers b x t :
  numbers (append_rating b x t) = numbers t && is_float x.
Proof.
  unfold numbers.
  induction t as [ | [b' xs] t IH]; cbn [append_rating forallb snd].
  - destruct (is_float x); reflexivity.
  - destruct (key_eqb b' b); cbn [forallb snd].
    + rewrite List.forallb_app. cbn [forallb]. rewrite andb_true_r.
      rewrite <- !andb_assoc. f_equal. apply andb_comm.
    + rewrite IH, andb_assoc. reflexivity.
Qed.

Lemma group_rows_entries data : forall t k,
  Forall (fun entry => snd entry <> []) t ->
  Forall (fun entry => snd entry <> []) (fst (group_rows data t k)).
Proof.
  induction data as [ | r data IH]; intros t k Ht; cbn [group_rows].
  - exact Ht.
  - rewrite add_row_usable. destruct (usable r); apply IH;
      [apply append_rating_entries | ]; exact Ht.
Qed.

Lemma group_rows_numbers data : forall t k,
  numbers (fst (group_rows data t k))
  = numbers t
    && forallb (fun r => negb (usable r) || is_float (rating_of r)) data.
Proof.
  induction data as [ | r data IH]; intros t k; cbn [group_rows forallb].
  - cbn [fst]. rewrite andb_true_r. reflexivity.
  - rewrite add_row_usable. destruct (usable r); rewrite IH; cbn [negb orb].
    + rewrite append_rating_numbers, andb_assoc. reflexivity.
    + reflexivity.
Qed.

Lemma sorted_reverse_length l :
  List.length (sorted_reverse l) = List.length l.
Proof. apply Permutation_length, sorted_reverse_perm. Qed.

(** How the Aggregator ends, by the table it has built. *)
Lemma calculate_average_rating_result alg data :
  match result (calculate_average_rating alg data) with
  | Return report =>
      forallb (fun r => negb (usable r) || is_float (rating_of r)) data
      = true
      /\ (report = [] <-> List.filter usable data = [])
  | Raise e =>
      forallb (fun r => negb (usable r) || is_float (rating_of r)) data
      = false
      /\ e = TypeError
  end.
Proof.
  pose proof (group_rows_nil data) as Hnil.
  pose proof (group_rows_numbers data [] 0) as Hnum.
  pose proof (group_rows_entries data [] 0 (List.Forall_nil _)) as Hent.
  unfold calculate_average_rating.
  destruct (group_rows data [] 0) as [t k]. cbn [fst] in *.
  change (numbers []) with true in Hnum. cbn [andb] in Hnum.
  pose proof (build_report_floats alg t Hent) as Hrep.
  destruct (0 <? k); (destruct t as [ | entry t];
    [cbn; rewrite <- Hnum; split; [reflexivity | ];
     rewrite <- Hnil; tauto | ]);
    (destruct (build_report alg (entry :: t)) as [report | e];
     [cbn; destruct Hrep as [Hn Hlen]; rewrite <- Hnum;
      split; [exact Hn | ]; rewrite <- Hnil;
      split; [ | discriminate]; intros Hs;
      pose proof (sorted_reverse_length report) as Hl;
      rewrite Hs, Hlen in Hl; discriminate Hl
     | cbn; rewrite <- Hnum; exact Hrep]).
Qed.

(** X12. The Aggregator never exits and raises nothing but [TypeError]; it
    raises [TypeError] exactly when a row that has both keys (and a
    hashable brand) has a rating that is no float, a text or [None] for
    instance: such a row is not skipped. It returns a report otherwise. *)
Theorem calculate_average_rating_type_error alg data :
  let bad r := usable r && negb (is_float (rating_of r)) in
  match result (calculate_average_rating alg data) with
  | Return _ => existsb bad data = false
  | Raise e => e = TypeError /\ existsb bad data = true
  end.
Proof.
  intros bad.
  assert (Hbad : forallb (fun r => negb (usable r) || is_float (rating_of r))
                   data = negb (existsb bad data)).
  { subst bad. induction data as [ | r data IH]; cbn [forallb existsb];
      [reflexivity | ].
    rewrite IH, negb_orb, negb_andb, negb_involutive. reflexivity. }
  pose proof (calculate_average_rating_result alg data) as H.
  rewrite Hbad in H.
  destruct (result (calculate_average_rating alg data)) as [report | e].
  - destruct H as [H _]. apply negb_true_iff in H. exact H.
  - destruct H as [H ->]. apply negb_false_iff in H. auto.
Qed.

(** X13. When the Aggregator returns, its report is empty exactly when no
    row has both keys and a hashable brand, the empty input included, and
    exactly then it has printed its error message. *)
Theorem calculate_average_rating_empty alg data log report :
  calculate_average_rating alg data = (log, Return report) ->
  (report = [] <-> Forall (fun r => usable r = false) data)
  /\ (report = [] <-> In (Write Stdout ErrNothingToAverage) log).
Proof.
  intros H.
  pose proof (calculate_average_rating_result alg data) as Hres.
  destruct (calculate_average_rating_kept alg data) as [_ Hlog].
  rewrite H in Hres, Hlog. cbn [result trace fst snd] in Hres, Hlog.
  destruct Hres as [_ Hres].
  assert (Hkept : List.filter usable data = []
                  <-> Forall (fun r => usable r = false) data).
  { clear. induction data as [ | r data IH]; cbn [List.filter].
    - split; [constructor | reflexivity].
    - destruct (usable r) eqn:Hr.
      + split; [discriminate | ]. intros Hf. inversion Hf; congruence.
      + rewrite IH. split; [constructor; assumption | ].
        intros Hf. inversion Hf; assumption. }
  split; [rewrite Hres; exact Hkept | ].
  rewrite Hres, Hlog, in_app_iff.
  destruct (List.filter usable data) as [ | r kept].
  - split; [intros _; right; left; reflexivity | reflexivity].
  - split; [discriminate | ].
    intros [Hin | []].
    destruct (0 <? _); [destruct Hin as [[= ] | []] | destruct Hin].
Qed.

(** The Records have both keys, a brand that can be a key of the table
    and a float as their rating. *)
Lemma read_csv_files_usable fs files log data :
  read_csv_files fs files = (log, Return data) ->
  data <> []
  /\ Forall (fun r => usable r = true /\ is_float (rating_of r) = true) data.
Proof.
  intros H. apply read_csv_files_Return in H as [H Hne].
  split; [exact Hne | ].
  apply read_files_Return in H as (new & -> & Hnew). cbn [app].
  eapply List.Forall_impl; [ | exact Hnew].
  intros record (file & _ & r & _ & Hacc).
  destruct (accepted_rating _ _ Hacc) as (b & x & Hb & _ & Hx & _).
  unfold usable, rating_of, get. rewrite Hb, Hx. split; reflexivity.
Qed.

(** On such rows the Aggregator prints nothing and returns a report with
    at least one row. *)
Lemma calculate_average_rating_usable alg data :
  data <> [] ->
  Forall (fun r => usable r = true /\ is_float (rating_of r) = true) data ->
  exists report,
    calculate_average_rating alg data = ([], Return report)
    /\ report <> [].
Proof.
  intros Hne Hshape.
  assert (Hkept : List.filter usable data = data).
  { clear Hne. induction Hshape as [ | r d [Hu _] _ IH];
      cbn [List.filter]; [reflexivity | ].
    rewrite Hu, IH. reflexivity. }
  assert (Hfloat : forallb (fun r => negb (usable r) || is_float (rating_of r))
                     data = true).
  { clear Hne Hkept. induction Hshape as [ | r d [_ Hf] _ IH];
      cbn [forallb]; [reflexivity | ].
    rewrite IH, Hf, orb_true_r. reflexivity. }
  pose proof (calculate_average_rating_result alg data) as Hres.
  destruct (calculate_average_rating_kept alg data) as [_ Hlog].
  rewrite Hkept, Nat.sub_diag in Hlog.
  change (0 <? Z.of_nat 0) with false in Hlog.
  destruct (calculate_average_rating alg data) as [l [report | e]];
    cbn [result trace fst snd] in *.
  - exists report. destruct Hres as [_ Hres]. rewrite Hkept in Hres.
    destruct data as [ | r d]; [congruence | ]. cbn [app] in Hlog.
    subst l. split; [reflexivity | ]. intros Hr. apply Hres in Hr.
    discriminate Hr.
  - destruct Hres as [Hres _]. congruence.
Qed.

(** X14. What [read_csv_files] returns, [calculate_average_rating] takes
    without a message: no Record is skipped, no [TypeError] is raised, and
    the report has at least one row. *)
Theorem ingested_records_are_averaged alg fs files log data :
  read_csv_files fs files = (log, Return data) ->
  exists report,
    calculate_average_rating alg data = ([], Return report)
    /\ report <> [].
Proof.
  intros H. apply read_csv_files_usable in H as [Hne Hshape].
  apply calculate_average_rating_usable; assumption.
Qed.

(** ** The File Validator *)

Lemma validate_valid fs files : forall valid_files,
  Forall (fun file => valid fs file = true) files ->
  validate fs files valid_files = ([], Return (valid_files ++ files)%list).
Proof.
  induction files as [ | file rest IH]; intros valid_files H;
    cbn [validate].
  - rewrite app_nil_r. reflexivity.
  - inversion H as [ | ? ? Hfile Hrest]; subst. unfold valid in Hfile.
    apply andb_true_iff in Hfile as [Hfile Hr].
    apply andb_true_iff in Hfile as [Hf Hc].
    rewrite Hf, Hc, Hr. cbn [negb]. rewrite IH by exact Hrest.
    rewrite <- app_assoc. reflexivity.
Qed.

Lemma validate_invalid fs files file rest : forall valid_files,
  Forall (fun file => valid fs file = true) files ->
  valid fs file = false ->
  validate fs (files ++ file :: rest) valid_files
  = ([Write Stdout (complaint fs file)], Raise (SystemExit 1)).
Proof.
  induction files as [ | f files IH]; intros valid_files H Hbad;
    cbn [validate app].
  - unfold valid in Hbad. unfold complaint.
    destruct (isfile (fs file)); [ | reflexivity].
    destruct (PyStr.endswith (PyStr.lower file) ".csv"); [ | reflexivity].
    destruct (readable (fs file)); [discriminate Hbad | reflexivity].
  - inversion H as [ | ? ? Hfile Hrest]; subst. unfold valid in Hfile.
    apply andb_true_iff in Hfile as [Hfile Hr].
    apply andb_true_iff in Hfile as [Hf Hc].
    rewrite Hf, Hc, Hr. cbn [negb]. apply IH; assumption.
Qed.

(** Either all paths pass, or the first that fails ends the run. *)
Lemma validate_cases fs paths :
  (Forall (fun file => valid fs file = true) paths
   /\ validate fs paths [] = ([], Return paths))
  \/ exists file,
       In file paths /\ valid fs file = false
       /\ validate fs paths []
          = ([Write Stdout (complaint fs file)], Raise (SystemExit 1)).
Proof.
  assert (H : Forall (fun file => valid fs file = true) paths
              \/ exists pre file rest,
                   paths = (pre ++ file :: rest)%list
                   /\ Forall (fun file => valid fs file = true) pre
                   /\ valid fs file = false).
  { induction paths as [ | f paths IH]; [left; constructor | ].
    destruct (valid fs f) eqn:Hf.
    - destruct IH as [IH | (pre & file & rest & -> & Hpre & Hbad)].
      + left. constructor; assumption.
      + right. exists (f :: pre), file, rest. split; [reflexivity | ].
        split; [constructor; assumption | exact Hbad].
    - right. exists [], f, paths. split; [reflexivity | ].
      split; [constructor | exact Hf]. }
  destruct H as [H | (pre & file & rest & -> & Hpre & Hbad)].
  - left. split; [exact H | ]. apply (validate_valid fs paths [] H).
  - right. exists file. split; [apply in_elt | ]. split; [exact Hbad | ].
    apply validate_invalid; assumption.
Qed.

(** X15. The validation is all or nothing: the loop over the paths either
    passes every path, prints nothing and leaves in [valid_files] the very
    list it was given, or exits with status 1 after one message about a
    path that fails a check. It never drops a path and goes on, so that
    [valid_files] is empty only when no path was given. *)
Theorem validate_all_or_nothing fs paths :
  match validate fs paths [] with
  | (log, Return valid_files) =>
      valid_files = paths /\ log = []
      /\ Forall (fun file => valid fs file = true) paths
  | (log, Raise e) =>
      e = SystemExit 1
      /\ exists file,
           In file paths /\ valid fs file = false
           /\ log = [Write Stdout (complaint fs file)]
  end.
Proof.
  destruct (validate_cases fs paths) as [[Hvalid ->] | (f & Hin & Hbad & ->)].
  - auto.
  - split; [reflexivity | ]. exists f. auto.
Qed.

(** X16. One path that is no file, has no name ending in [.csv] or cannot
    be read ends the run before any file is opened: the process prints one
    message, for the first such path and the first check it fails, and
    exits with status 1, whatever the files contain and whichever report
    is asked for. *)
Theorem main_rejects_invalid_path report_handlers fs name paths file rest :
  Forall (fun file => valid fs file = true) paths ->
  valid fs file = false ->
  main_with report_handlers fs
    (Return (Arguments (paths ++ file :: rest) name))
  = ([Write Stdout (complaint fs file)], Raise (SystemExit 1)).
Proof.
  intros Hpre Hbad. unfold main_with. cbn [lift bind files].
  rewrite (validate_invalid fs paths file rest [] Hpre Hbad). reflexivity.
Qed.

(** ** The process, from the arguments to the exit status *)

(** X17. No exception leaves [main] except [SystemExit]: whatever
    [parse_args], the files and the report handlers do, the process ends
    normally or by [sys.exit], never with a traceback. *)
Theorem main_raises_only_exit report_handlers fs parsed :
  match result (main_with report_handlers fs parsed) with
  | Return _ => True
  | Raise e => exists code, e = SystemExit code
  end.
Proof.
  unfold main_with.
  match goal with
  | |- context [try_except ?m _] => destruct m as [l [[] | e]]
  end;
    cbn [try_except result snd]; [exact I | ].
  destruct e; cbn; eauto.
Qed.

Lemma bind_ret_l {A B} (a : A) (k : A -> M B) : bind (ret a) k = k a.
Proof. cbn [ret bind]. destruct (k a). reflexivity. Qed.

Lemma no_table_app (l1 l2 : list event) :
  Forall (fun e => is_table e = false) l1 ->
  Forall (fun e => is_table e = false) l2 ->
  Forall (fun e => is_table e = false) (l1 ++ l2).
Proof. intros H1 H2. apply List.Forall_app. auto. Qed.

Lemma diagnostics_no_table {A} (m : M A) :
  all_events diagnostic m -> Forall (fun e => is_table e = false) (trace m).
Proof. apply List.Forall_impl. intros e [_ H]. exact H. Qed.

(** X18. A run of the script with parsed arguments ends in one of two ways,
    provided that reading a file does not itself end the process: either
    it returns normally, and then all paths were valid, the Records were
    read and averaged, and the last thing printed is the table of a report
    with at least one row, the only table; or it exits with status 1 and
    has printed no table. With the handler [average-rating] the exit with
    status 0 for an empty report does not occur. *)
Theorem main_outcome alg fs args :
  no_exit_on_read fs ->
  match result (main alg fs (Return args)) with
  | Return _ =>
      exists log data report_data,
        Forall (fun file => valid fs file = true) (files args)
        /\ read_csv_files fs (files args) = (log, Return data)
        /\ calculate_average_rating alg data = ([], Return report_data)
        /\ report_data <> []
        /\ trace (main alg fs (Return args))
           = (log ++ [Write Stdout (Table report_data)])%list
        /\ Forall (fun e => is_table e = false) log
  | Raise e =>
      e = SystemExit 1
      /\ Forall (fun e => is_table e = false)
           (trace (main alg fs (Return args)))
  end.
Proof.
  intros Hfs. unfold main, main_with.
  change (lift (Return args)) with (ret args). rewrite bind_ret_l.
  destruct (validate_cases fs (files args))
    as [[Hvalid ->] | (f & _ & _ & ->)].
  2: { cbn [bind try_except result trace fst snd].
       split; [reflexivity | ]. repeat constructor. unfold complaint.
       destruct (negb (isfile (fs f))); [reflexivity | ].
       destruct (negb (PyStr.endswith _ _)); reflexivity. }
  change ([], Return (files args)) with (ret (files args)).
  rewrite bind_ret_l.
  destruct (files args) as [ | file rest] eqn:Hfiles.
  { cbn. split; [reflexivity | repeat constructor]. }
  pose proof (diagnostics_no_table _
                (read_csv_files_diagnostics fs (file :: rest))) as Hlog.
  destruct (read_csv_files fs (file :: rest)) as [log [data | e]] eqn:Hread;
    cbn [result trace fst snd] in Hlog.
  - destruct (read_csv_files_usable _ _ _ _ Hread) as [Hdata Hshape].
    destruct (calculate_average_rating_usable alg data Hdata Hshape)
      as (report_data & Hcalc & Hne).
    cbn [bind lookup_handler].
    destruct (String.eqb "average-rating" (report args)).
    + cbn [ret bind app]. rewrite Hcalc. cbn [bind app].
      destruct report_data as [ | x report_data]; [congruence | ].
      cbn [print try_except result trace fst snd].
      exists log, data, (x :: report_data). auto 10.
    + cbn [raise bind try_except print sys_exit result trace fst snd app].
      split; [reflexivity | ].
      rewrite app_nil_r. apply no_table_app; [exact Hlog | ].
      repeat constructor.
  - cbn [bind try_except].
    destruct (read_csv_files_Raise _ _ _ _ Hread)
      as [-> | (He & f & _ & Hf)].
    + cbn [result trace fst snd]. split; [reflexivity | exact Hlog].
    + destruct e; try discriminate He.
      * destruct (Hfs _ _ Hf).
      * cbn [raise bind try_except print sys_exit result trace fst snd app].
        split; [reflexivity | ].
        apply no_table_app; [exact Hlog | repeat constructor].
Qed.

(** ** The extension of a path *)

Lemma list_ascii_of_string_app a b :
  list_ascii_of_string (a +:+ b)
  = (list_ascii_of_string a ++ list_ascii_of_string b)%list.
Proof.
  induction a as [ | c a IH]; [reflexivity | ].
  change (String c a +:+ b) with (String c (a +:+ b)).
  cbn [list_ascii_of_string app]. rewrite IH. reflexivity.
Qed.

Lemma endswith_lower base ext :
  PyStr.lower ext = ".csv" ->
  PyStr.endswith (PyStr.lower (base +:+ ext)) ".csv" = true.
Proof.
  unfold PyStr.lower, PyStr.endswith. intros Hext.
  apply (f_equal list_ascii_of_string) in Hext.
  rewrite list_ascii_of_string_of_list_ascii in Hext.
  rewrite list_ascii_of_string_of_list_ascii.
  rewrite list_ascii_of_string_app, map_app, Hext.
  set (l := map PyStr.lower_char (list_ascii_of_string base)).
  rewrite List.length_app.
  change (String.length ".csv") with 4%nat.
  change (List.length (list_ascii_of_string ".csv")) with 4%nat.
  replace (List.length l + 4 - 4)%nat with (List.length l + 0)%nat by lia.
  rewrite skipn_app, Nat.add_0_r, skipn_all.
  replace (List.length l - List.length l)%nat with 0%nat by lia.
  cbn [skipn app]. apply andb_true_intro. split.
  - apply Nat.leb_le. lia.
  - reflexivity.
Qed.

(** X19. The check of the extension looks at the end of the path only and
    ignores the case of its letters: a readable file whose name ends in
    [.csv], [.CSV], [.Csv] and so on passes the validation. *)
Theorem csv_extension_any_case fs base ext :
  PyStr.lower ext = ".csv" ->
  isfile (fs (base +:+ ext)) = true ->
  readable (fs (base +:+ ext)) = true ->
  validate fs [base +:+ ext] [] = ([], Return [base +:+ ext]).
Proof.
  intros Hext Hfile Hread.
  apply (validate_valid fs [base +:+ ext] []).
  constructor; [ | constructor].
  unfold valid. rewrite Hfile, Hread, (endswith_lower base ext Hext).
  reflexivity.
Qed.

(** X20. When the user interrupts the script while a file is opened,
    [read_csv_files] prints nothing about it and lets the interrupt pass,
    since [KeyboardInterrupt] is no [Exception]; [main] then prints that
    the program was interrupted, after the messages of the files read
    before, and exits with status 1. *)
Theorem interrupt_while_reading report_handlers fs name paths file rest log
    data :
  Forall (fun f => valid fs f = true) (paths ++ file :: rest) ->
  read_files fs paths [] = (log, Return data) ->
  contents (fs file) = Unreadable KeyboardInterrupt ->
  read_csv_files fs (paths ++ file :: rest) = (log, Raise KeyboardInterrupt)
  /\ main_with report_handlers fs
       (Return (Arguments (paths ++ file :: rest) name))
     = ((log ++ [Write Stdout MsgInterrupted])%list, Raise (SystemExit 1)).
Proof.
  intros Hvalid Hpre Hfile.
  assert (Hread : read_csv_files fs (paths ++ file :: rest)
                  = (log, Raise KeyboardInterrupt)).
  { unfold read_csv_files. rewrite read_files_app, Hpre.
    cbn [bind read_files]. unfold read_file. rewrite Hfile.
    cbn [raise try_except is_Exception bind]. rewrite app_nil_r.
    reflexivity. }
  split; [exact Hread | ].
  unfold main_with. change (lift (Return ?a)) with (ret a).
  rewrite bind_ret_l. cbn [files].
  rewrite (validate_valid fs _ [] Hvalid). cbn [app].
  change ([], Return ?l) with (ret l). rewrite bind_ret_l.
  destruct (paths ++ file :: rest)%list as [ | f l] eqn:Hl.
  { destruct paths; discriminate Hl. }
  rewrite Hread. reflexivity.
Qed.

(** ** The brands of the report *)

Lemma append_rating_keys b x t :
  map fst (append_rating b x t)
  = if existsb (fun c => key_eqb c b) (map fst t) then map fst t
    else (map fst t ++ [b])%list.
Proof.
  induction t as [ | [b' xs] t IH]; cbn [append_rating map fst existsb app];
    [reflexivity | ].
  destruct (key_eqb b' b); cbn [orb map fst]; [reflexivity | ].
  rewrite IH. destruct (existsb _ (map fst t)); reflexivity.
Qed.

Lemma existsb_key_str s ks :
  existsb (fun c => key_eqb c (VStr s)) ks = true <-> In (VStr s) ks.
Proof.
  rewrite existsb_exists. split.
  - intros (c & Hc & E). apply key_eqb_str_r in E. subst c. exact Hc.
  - intros H. exists (VStr s). split; [exact H | ].
    apply key_eqb_str_r. reflexivity.
Qed.

(** The keys of the table: the brands of the kept rows, once each. *)
Lemma group_rows_keys data : forall t k,
  Forall (fun r => usable r = true -> is_str (brand_of r)) data ->
  List.NoDup (map fst t) ->
  List.NoDup (map fst (fst (group_rows data t k)))
  /\ forall c, In c (map fst (fst (group_rows data t k)))
               <-> In c (map fst t)
                   \/ In c (map brand_of (List.filter usable data)).
Proof.
  induction data as [ | r data IH]; intros t k Hdata Hnd;
    cbn [group_rows List.filter].
  - split; [exact Hnd | ]. intros c. cbn. tauto.
  - inversion Hdata as [ | ? ? Hr Hrest]; subst.
    rewrite add_row_usable. destruct (usable r) eqn:Hu.
    + destruct (Hr eq_refl) as [s Hs]. rewrite Hs.
      pose proof (append_rating_keys (VStr s) (rating_of r) t) as Hkeys.
      pose proof (existsb_key_str s (map fst t)) as Hex.
      assert (Hnd' : List.NoDup
                       (map fst (append_rating (VStr s) (rating_of r) t))).
      { rewrite Hkeys. destruct (existsb _ (map fst t)); [exact Hnd | ].
        apply List.NoDup_app; [exact Hnd | repeat constructor; cbn; tauto | ].
        intros c Hc [<- | []]. apply Hex in Hc. discriminate Hc. }
      destruct (IH (append_rating (VStr s) (rating_of r) t) k Hrest Hnd')
        as [IH1 IH2].
      split; [exact IH1 | ]. intros c. rewrite IH2, Hkeys.
      cbn [map In]. rewrite Hs.
      destruct (existsb _ (map fst t)).
      * split; [tauto | ]. intros [H | [<- | H]]; [tauto | | tauto].
        left. apply Hex. reflexivity.
      * rewrite in_app_iff. cbn [In]. tauto.
    + apply IH; assumption.
Qed.

Lemma build_report_keys alg t : forall report,
  build_report alg t = Return report -> map brand report = map fst t.
Proof.
  induction t as [ | [b xs] t IH]; intros report; cbn [build_report].
  - intros [= <-]. reflexivity.
  - destruct (mean alg xs) as [m | e]; [ | discriminate].
    destruct (build_report alg t) as [rep | e]; [ | discriminate].
    intros [= <-]. cbn [map brand fst]. rewrite (IH rep eq_refl).
    reflexivity.
Qed.

(** X21. Whenever the Aggregator returns, its report has exactly one row
    for each distinct brand of the rows it keeps (those with both keys),
    provided their brands are texts; this does not depend on the ratings,
    which may be NaN or infinite. *)
Theorem report_has_one_row_per_brand alg data log report :
  Forall (fun r => usable r = true -> is_str (brand_of r)) data ->
  calculate_average_rating alg data = (log, Return report) ->
  List.NoDup (map brand report)
  /\ forall b, In b (map brand report)
               <-> In b (map brand_of (List.filter usable data)).
Proof.
  intros Hdata.
  destruct (group_rows_keys data [] 0 Hdata (List.NoDup_nil _)) as [Hnd Hin].
  unfold calculate_average_rating.
  destruct (group_rows data [] 0) as [t k]. cbn [fst map In] in Hnd, Hin.
  assert (Hrep : forall rep, build_report alg t = Return rep ->
            List.NoDup (map brand (sorted_reverse rep))
            /\ forall b, In b (map brand (sorted_reverse rep))
                         <-> In b (map brand_of (List.filter usable data))).
  { intros rep H. apply build_report_keys in H.
    pose proof (Permutation_map brand (sorted_reverse_perm rep)) as Hperm.
    rewrite H in Hperm. split.
    - eapply Permutation_NoDup; [symmetry; exact Hperm | exact Hnd].
    - intros b. split.
      + intros Hb. apply (Permutation_in _ Hperm) in Hb.
        apply Hin in Hb as [[] | Hb]. exact Hb.
      + intros Hb. eapply Permutation_in; [symmetry; exact Hperm | ].
        apply Hin. right. exact Hb. }
  destruct (0 <? k); destruct t as [ | entry t]; cbn [bind print ret app];
    try (intros [= <- <-]; apply (Hrep [] eq_refl));
    (destruct (build_report alg (entry :: t)) as [rep | e] eqn:Hb;
     cbn [lift bind ret app]; [ | discriminate]);
    intros [= <- <-]; apply (Hrep rep eq_refl).
Qed.

(** *** Instances *)

(** Closed equations are decided by evaluation. *)
Ltac evaluate :=
  lazymatch goal with
  | |- @eq ?T ?a ?b => exact (@eq_refl T b <: a = b)
  end.

Lemma read_csv_files_in_order_witness :
  [record_row "phone" "apple" "1000" "4.5"]
  = flat_map
      (records_of (one_file [csv_row "watch" "" "10" "5";
                             csv_row "phone" "apple" "1000" "4.5"]))
      ["a.csv"].
Proof.
  apply (read_csv_files_in_order
           (one_file [csv_row "watch" "" "10" "5";
                      csv_row "phone" "apple" "1000" "4.5"])
           ["a.csv"] []).
  evaluate.
Defined.

Lemma read_csv_files_app_witness :
  let fs := files_of
              [("a.csv", csv [csv_row "watch" "sony" "10" "6";
                              csv_row "phone" "apple" "1000" "4.5"]);
               ("b.csv", csv [csv_row "tv" "lg" "500" "4"])] in
  read_csv_files fs (["a.csv"] ++ ["b.csv"])
  = (([Write Stdout (WarnRatingRange (lit "6") 2 "a.csv")] ++ [])%list,
     Return ([record_row "phone" "apple" "1000" "4.5"]
             ++ [record_row "tv" "lg" "500" "4"])%list).
Proof.
  intros fs.
  apply (read_csv_files_app fs ["a.csv"] ["b.csv"]); evaluate.
Defined.

Lemma read_csv_files_fail_fast_witness :
  let fs := files_of [("a.csv", csv [csv_row "phone" "apple" "1000" "4.5"])] in
  read_csv_files fs (["a.csv"] ++ "b.csv" :: ["c.csv"])
  = (([] ++ [Write Stdout (read_failure "b.csv" FileNotFoundError)])%list,
     Raise (SystemExit 1)).
Proof.
  intros fs.
  apply (read_csv_files_fail_fast fs ["a.csv"] "b.csv" ["c.csv"] []
           [record_row "phone" "apple" "1000" "4.5"] FileNotFoundError);
    evaluate.
Defined.

Lemma missing_columns_skips_file_witness :
  let fs := files_of
              [("a.csv",
                FileState true true
                  (Csv (Some ["name"; "Brand"; "rating"])
                     [dict [("name", VStr "phone"); ("Brand", VStr "apple");
                            ("rating", VStr "4.5")]]
                     (Some (OtherException "UnicodeDecodeError"))))] in
  read_files fs ["a.csv"] []
  = (Write Stdout (WarnMissingColumns "a.csv") :: trace (read_files fs [] []),
     result (read_files fs [] [])).
Proof.
  intros fs.
  apply (missing_columns_skips_file fs "a.csv" [] []
           (Some ["name"; "Brand"; "rating"])
           [dict [("name", VStr "phone"); ("Brand", VStr "apple");
                  ("rating", VStr "4.5")]]
           (Some (OtherException "UnicodeDecodeError"))).
  - reflexivity.
  - intros names [= <-] [[H | [H | [H | []]]] _]; discriminate H.
Defined.

Lemma defective_rows_are_reported_witness :
  let r := csv_row "phone" "apple" "1000" "abc" in
  let log := [Write Stdout (WarnRatingFormat 2 "a.csv")] in
  (bad_format r ->
   In (Write Stdout (WarnRatingFormat (2 + Z.of_nat 0) "a.csv")) log)
  /\ (forall x, out_of_range r x ->
        In (Write Stdout (WarnRatingRange x (2 + Z.of_nat 0) "a.csv")) log).
Proof.
  intros r log.
  apply (defective_rows_are_reported
           (one_file [r; csv_row "tv" "lg" "500" "4"]) ["a.csv"] log
           [record_row "tv" "lg" "500" "4"] "a.csv" 0 r).
  - evaluate.
  - left. reflexivity.
  - evaluate.
  - reflexivity.
Defined.

Lemma no_valid_data_warning_witness :
  let fs := files_of [("a.csv", csv []);
                      ("b.csv", csv [csv_row "tv" "lg" "500" "4"])] in
  In (Write Stdout (WarnNoValidData "a.csv"))
    [Write Stdout (WarnNoValidData "a.csv")]
  <-> In "a.csv" ["a.csv"; "b.csv"] /\ header_ok fs "a.csv" = true
      /\ records_of fs "a.csv" = [].
Proof.
  intros fs.
  apply (no_valid_data_warning fs ["a.csv"; "b.csv"]
           [Write Stdout (WarnNoValidData "a.csv")]
           [record_row "tv" "lg" "500" "4"] "a.csv").
  evaluate.
Defined.

Lemma read_csv_files_record_shape_witness :
  Forall (fun record =>
            exists b x,
              record !! field "brand" = Some (VStr b)
              /\ PyStr.nonempty b = true /\ PyStr.strip b = b
              /\ record !! field "rating" = Some (VFloat x)
              /\ (in_range x = true \/ is_nan x = true))
    [<[field "rating" := VFloat (lit "4.5")]>
       (<[field "brand" := VStr "apple"]>
          (csv_row "phone" " apple " "1000" " 4.5"))].
Proof.
  apply (read_csv_files_record_shape
           (one_file [csv_row "phone" " apple " "1000" " 4.5"])
           ["a.csv"] []).
  evaluate.
Defined.

Lemma blank_row_skipped_silently_witness :
  process_row "a.csv" 2 (csv_row "phone" "  " "1000" "4.5")
  = ([], Return None).
Proof.
  apply (blank_row_skipped_silently "a.csv" 2
           (csv_row "phone" "  " "1000" "4.5")); evaluate.
Defined.

Lemma calculate_average_rating_empty_witness :
  let data := [dict [("brand", VStr "apple")]] in
  let log := [Write Stdout (WarnSkipped 1); Write Stdout ErrNothingToAverage] in
  (@nil report_row = [] <-> Forall (fun r => usable r = false) data)
  /\ (@nil report_row = [] <-> In (Write Stdout ErrNothingToAverage) log).
Proof.
  intros data log.
  apply (calculate_average_rating_empty Plain data log []).
  evaluate.
Defined.

Lemma ingested_records_are_averaged_witness :
  exists report,
    calculate_average_rating Compensated
      [record_row "phone" "apple" "1000" "4.5"]
    = ([], Return report)
    /\ report <> [].
Proof.
  apply (ingested_records_are_averaged Compensated
           (one_file [csv_row "phone" "apple" "1000" "4.5"]) ["a.csv"] []).
  evaluate.
Defined.

Lemma main_rejects_invalid_path_witness :
  let fs := files_of [("a.csv", csv [csv_row "phone" "apple" "1000" "4.5"]);
                      ("notes.txt", csv [])] in
  main_with [("average-rating", calculate_average_rating Plain)] fs
    (Return (Arguments (["a.csv"] ++ "notes.txt" :: ["b.csv"])
               "average-rating"))
  = ([Write Stdout (complaint fs "notes.txt")], Raise (SystemExit 1)).
Proof.
  intros fs.
  apply (main_rejects_invalid_path
           [("average-rating", calculate_average_rating Plain)] fs
           "average-rating" ["a.csv"] "notes.txt" ["b.csv"]).
  - repeat constructor.
  - reflexivity.
Defined.

Lemma main_outcome_witness :
  let fs := one_file [csv_row "phone" "apple" "1000" "4.5"] in
  let args := Arguments ["a.csv"] "average-rating" in
  match result (main Plain fs (Return args)) with
  | Return _ =>
      exists log data report_data,
        Forall (fun file => valid fs file = true) (files args)
        /\ read_csv_files fs (files args) = (log, Return data)
        /\ calculate_average_rating Plain data = ([], Return report_data)
        /\ report_data <> []
        /\ trace (main Plain fs (Return args))
           = (log ++ [Write Stdout (Table report_data)])%list
        /\ Forall (fun e => is_table e = false) log
  | Raise e =>
      e = SystemExit 1
      /\ Forall (fun e => is_table e = false)
           (trace (main Plain fs (Return args)))
  end.
Proof.
  intros fs args.
  apply (main_outcome Plain fs args).
  intros file code. discriminate.
Defined.

Lemma csv_extension_any_case_witness :
  validate (one_file []) ["DATA" +:+ ".Csv"] []
  = ([], Return ["DATA" +:+ ".Csv"]).
Proof.
  apply (csv_extension_any_case (one_file []) "DATA" ".Csv"); reflexivity.
Defined.

Lemma interrupt_while_reading_witness :
  let fs := files_of [("a.csv", csv [csv_row "phone" "apple" "1000" "6"]);
                      ("b.csv",
                       FileState true true (Unreadable KeyboardInterrupt))] in
  let log := [Write Stdout (WarnRatingRange (lit "6") 2 "a.csv");
              Write Stdout (WarnNoValidData "a.csv")] in
  read_csv_files fs (["a.csv"] ++ "b.csv" :: [])
  = (log, Raise KeyboardInterrupt)
  /\ main_with [("average-rating", calculate_average_rating Plain)] fs
       (Return (Arguments (["a.csv"] ++ "b.csv" :: []) "average-rating"))
     = ((log ++ [Write Stdout MsgInterrupted])%list, Raise (SystemExit 1)).
Proof.
  intros fs log.
  apply (interrupt_while_reading
           [("average-rating", calculate_average_rating Plain)] fs
           "average-rating" ["a.csv"] "b.csv" [] log []).
  - repeat constructor.
  - evaluate.
  - reflexivity.
Defined.

Lemma report_has_one_row_per_brand_witness :
  let data := [record "apple" "nan"; dict [("brand", VStr "lg")];
               record "apple" "4.5"] in
  let report := [ReportRow (VStr "apple") nan] in
  List.NoDup (map brand report)
  /\ forall b, In b (map brand report)
               <-> In b (map brand_of (List.filter usable data)).
Proof.
  intros data report.
  apply (report_has_one_row_per_brand Compensated data
           [Write Stdout (WarnSkipped 1)] report).
  - repeat (constructor; [intros _; eexists; reflexivity | ]). constructor.
  - evaluate.
Defined.
